(** * warp-task-tracker: session registry and task lifecycle

    A shallow embedding of the two classes that make up the core of the
    tracker, [WarpSessionManager] (session polling and diffing) and
    [TaskTracker] (manual and session-bound task lifecycle), followed by
    the properties of the specification that concern them.

    Conventions of the embedding:
    - a JavaScript [Set] / [Map] keyed by strings is an insertion-ordered
      list (iteration order is observable through [Array.from]); the
      theorems relate them to stdpp's [gset] where a claim speaks of sets;
    - an ISO timestamp ([new Date().toISOString()]) is the clock value in
      milliseconds it was rendered from;
    - numbers handled by the lifecycle (percentages, window ids) are
      integers ([Z]); fractions and [NaN] are outside the model;
    - every method runs in a state-and-exception monad over [World], which
      holds the two JSON files, the wall clock, the console, the desktop
      notifications and the fields of the two objects. *)

From Stdlib Require Import ZArith List Bool Lia Ascii String.
From stdpp Require Import base decidable option list gmap strings pretty.

(** ** JavaScript containers *)

Module Js.

(** [Set] of strings: insertion ordered, no duplicates. *)
Abbreviation JsSet := (list string) (only parsing).

Definition set_has (s : JsSet) (k : string) : bool := bool_decide (k ∈ s).

Definition set_add (s : JsSet) (k : string) : JsSet :=
  if set_has s k then s else s ++ [k].

(** [new Set(iterable)] *)
Definition set_from (ks : list string) : JsSet := foldl set_add [] ks.

(** [Map] with string keys: insertion ordered association list with
    one entry per key. *)
Abbreviation JsMap V := (list (string * V)) (only parsing).

Fixpoint map_get {V} (m : JsMap V) (k : string) : option V :=
  match m with
  | [] => None
  | (k', v) :: m' => if decide (k' = k) then Some v else map_get m' k
  end.

Definition map_has {V} (m : JsMap V) (k : string) : bool :=
  match map_get m k with Some _ => true | None => false end.

(** [m.set(k, v)]: overwrite in place when the key is present, append
    otherwise. *)
Fixpoint map_set {V} (m : JsMap V) (k : string) (v : V) : JsMap V :=
  match m with
  | [] => [(k, v)]
  | (k', v') :: m' =>
      if decide (k' = k) then (k', v) :: m' else (k', v') :: map_set m' k v
  end.

Fixpoint map_delete {V} (m : JsMap V) (k : string) : JsMap V :=
  match m with
  | [] => []
  | (k', v') :: m' =>
      if decide (k' = k) then map_delete m' k else (k', v') :: map_delete m' k
  end.

Definition map_keys {V} (m : JsMap V) : list string := m.*1.
Definition map_values {V} (m : JsMap V) : list V := m.*2.

End Js.

Import Js.

(** ** Data model *)

Inductive Status := InProgress | Completed | Stopped.

Record Update := {
  u_timestamp : Z;
  u_progress : Z;
  u_message : string
}.

Record SessionInfo := {
  si_windowId : Z;
  si_projectName : string;
  si_workingDir : string;
  si_title : string
}.

(** A task object.  [endTime], [completionMessage], [sessionId] and
    [sessionInfo] are properties that a task may lack. *)
Record Task := {
  id : string;
  name : string;
  description : string;
  startTime : Z;
  endTime : option Z;
  progress : Z;
  updates : list Update;
  status : Status;
  completionMessage : option string;
  sessionId : option string;
  sessionInfo : option SessionInfo
}.

(** Contents of [tasks.json]. *)
Record Data := {
  currentTask : option Task;
  history : list Task
}.

(** Contents of [config.json]; the lifecycle reads [notifications] only. *)
Record Config := {
  displayStyle : string;
  updateInterval : Z;
  notifications : bool;
  autoSave : bool;
  progressBarLength : Z
}.

(** An enriched session, as built by [enrichSessionsWithWorkingDir]. *)
Record Session := {
  s_title : string;
  s_windowId : Z;
  s_sessionId : string;
  s_workingDir : string;
  s_projectName : string;
  s_taskName : string;
  s_lastSeen : Z
}.

Inductive JsError :=
  | Error (message : string)
  | RangeErrorInvalidCount
  | IOError.

Inductive ConsoleLine :=
  | WarnTaskAlreadyInProgress
  | WarnCompleteOrStopFirst
  | LogStartedTracking
  | ErrNoActiveTaskFound
  | ErrProgressRange
  | LogProgressUpdated
  | LogProgressChange (change : Z)
  | WarnNoActiveTask
  | LogCurrentStatus
  | ErrNoActiveTaskToComplete
  | LogTaskCompleted
  | ErrNoActiveTaskToStop
  | LogTaskStopped
  | LogBox (task : Task) (detailed : bool)
  | ErrGettingWarpSessions (e : JsError)
  | ErrCreatingTaskForSession (e : JsError)
  | ErrHandlingClosedSession (e : JsError)
  | ErrScanningForTasks (e : JsError).

#[global] Instance Status_eq_dec : EqDecision Status.
Proof. solve_decision. Defined.
#[global] Instance Update_eq_dec : EqDecision Update.
Proof. solve_decision. Defined.
#[global] Instance SessionInfo_eq_dec : EqDecision SessionInfo.
Proof. solve_decision. Defined.
#[global] Instance Task_eq_dec : EqDecision Task.
Proof. solve_decision. Defined.

(** ** The world *)

(** A world is the state in which one call of the tracker runs, and the
    calls of a run happen one after the other.  The constructor's
    [initializeData], started without being awaited, is not part of a
    world.  It writes [tasks.json] only when the file does not exist, so
    it leaves alone every world whose [dataFile] is present; in a first
    run, with the file missing, its write of the empty store runs
    alongside the first calls. *)

Record World := {
  (* file system *)
  dataFile : option Data;        (* [None]: missing or unparsable *)
  configFile : option Config;
  diskWritable : bool;           (* does [fs.writeJson] succeed *)
  (* wall clock, in milliseconds *)
  clock : Z;
  (* output *)
  console : list ConsoleLine;
  notified : list string;
  (* TaskTracker fields *)
  activeTasks : JsMap Task;
  (* WarpSessionManager fields *)
  activeSessions : JsMap Session;
  lastKnownSessions : JsSet
}.

Definition set_dataFile (d : option Data) (w : World) : World :=
  {| dataFile := d; configFile := configFile w; diskWritable := diskWritable w;
     clock := clock w; console := console w; notified := notified w;
     activeTasks := activeTasks w; activeSessions := activeSessions w;
     lastKnownSessions := lastKnownSessions w |}.

Definition set_diskWritable (b : bool) (w : World) : World :=
  {| dataFile := dataFile w; configFile := configFile w; diskWritable := b;
     clock := clock w; console := console w; notified := notified w;
     activeTasks := activeTasks w; activeSessions := activeSessions w;
     lastKnownSessions := lastKnownSessions w |}.

Definition set_clock (t : Z) (w : World) : World :=
  {| dataFile := dataFile w; configFile := configFile w; diskWritable := diskWritable w;
     clock := t; console := console w; notified := notified w;
     activeTasks := activeTasks w; activeSessions := activeSessions w;
     lastKnownSessions := lastKnownSessions w |}.

Definition set_console (c : list ConsoleLine) (w : World) : World :=
  {| dataFile := dataFile w; configFile := configFile w; diskWritable := diskWritable w;
     clock := clock w; console := c; notified := notified w;
     activeTasks := activeTasks w; activeSessions := activeSessions w;
     lastKnownSessions := lastKnownSessions w |}.

Definition set_notified (n : list string) (w : World) : World :=
  {| dataFile := dataFile w; configFile := configFile w; diskWritable := diskWritable w;
     clock := clock w; console := console w; notified := n;
     activeTasks := activeTasks w; activeSessions := activeSessions w;
     lastKnownSessions := lastKnownSessions w |}.

Definition set_activeTasks (m : JsMap Task) (w : World) : World :=
  {| dataFile := dataFile w; configFile := configFile w; diskWritable := diskWritable w;
     clock := clock w; console := console w; notified := notified w;
     activeTasks := m; activeSessions := activeSessions w;
     lastKnownSessions := lastKnownSessions w |}.

Definition set_activeSessions (m : JsMap Session) (w : World) : World :=
  {| dataFile := dataFile w; configFile := configFile w; diskWritable := diskWritable w;
     clock := clock w; console := console w; notified := notified w;
     activeTasks := activeTasks w; activeSessions := m;
     lastKnownSessions := lastKnownSessions w |}.

Definition set_lastKnownSessions (s : JsSet) (w : World) : World :=
  {| dataFile := dataFile w; configFile := configFile w; diskWritable := diskWritable w;
     clock := clock w; console := console w; notified := notified w;
     activeTasks := activeTasks w; activeSessions := activeSessions w;
     lastKnownSessions := s |}.

(** ** State and exception monad *)

Inductive Completion (A : Type) :=
  | Returned (a : A)
  | Thrown (e : JsError).
Arguments Returned {A} a.
Arguments Thrown {A} e.

Definition M (A : Type) : Type := World → Completion A * World.

#[global] Instance M_ret : MRet M := λ A a w, (Returned a, w).

#[global] Instance M_bind : MBind M := λ A B f m w,
  match m w with
  | (Returned a, w') => f a w'
  | (Thrown e, w') => (Thrown e, w')
  end.

Definition throw {A} (e : JsError) : M A := λ w, (Thrown e, w).

(** [try { body } catch (error) { handler }] *)
Definition try_catch {A} (body : M A) (handler : JsError → M A) : M A := λ w,
  match body w with
  | (Returned a, w') => (Returned a, w')
  | (Thrown e, w') => handler e w'
  end.

Definition gets {A} (f : World → A) : M A := λ w, (Returned (f w), w).
Definition modify (f : World → World) : M unit := λ w, (Returned (), f w).

Definition when (b : bool) (m : M unit) : M unit := if b then m else mret ().

Definition console_log (l : ConsoleLine) : M unit :=
  modify (λ w, set_console (console w ++ [l]) w).

(** [notifier.notify({ title: 'Warp Task Tracker', message, icon })] *)
Definition notify (message : string) : M unit :=
  modify (λ w, set_notified (notified w ++ [message]) w).

(** [Date.now()] and the instant of [new Date()]. *)
Definition Date_now : M Z := gets clock.

Definition returned {A} (c : Completion A) : bool :=
  match c with Returned _ => true | Thrown _ => false end.

(** ** WarpSessionManager *)

Module WarpSessionManager.

(** What the body of the [try] in [getWarpSessions] (the AppleScript
    call, its parsing and the enrichment) comes to: the enriched
    sessions, or an exception. *)
Inductive Probe :=
  | ProbeOk (enrichedSessions : list Session)
  | ProbeFailed (error : JsError).

Definition getWarpSessions (probe : Probe) : M (list Session) :=
  try_catch
    match probe with
    | ProbeOk enrichedSessions => mret enrichedSessions
    | ProbeFailed error => throw error
    end
    (λ error, console_log (ErrGettingWarpSessions error);; mret []).

Record Changes := {
  newSessions : list Session;
  closedSessions : list string;
  allSessions : list Session
}.

Definition detectSessionChanges (probe : Probe) : M Changes :=
  currentSessions ← getWarpSessions probe;
  let currentSessionIds := set_from (s_sessionId <$> currentSessions) in
  lastKnown ← gets lastKnownSessions;
  (* Find new sessions *)
  let newSessions :=
    filter (λ session, ¬ set_has lastKnown (s_sessionId session)) currentSessions in
  (* Find closed sessions *)
  let closedSessionIds :=
    filter (λ sessionId, ¬ set_has currentSessionIds sessionId) lastKnown in
  (* Update tracking *)
  modify (set_lastKnownSessions currentSessionIds);;
  (* Update active sessions map *)
  modify (λ w, set_activeSessions
    (foldl (λ m session, map_set m (s_sessionId session) session)
           (activeSessions w) currentSessions) w);;
  (* Remove closed sessions *)
  modify (λ w, set_activeSessions
    (foldl map_delete (activeSessions w) closedSessionIds) w);;
  mret {| newSessions := newSessions;
          closedSessions := closedSessionIds;
          allSessions := currentSessions |}.

Definition getSession (sessionId : string) : M (option Session) :=
  gets (λ w, map_get (activeSessions w) sessionId).

Definition getAllSessions : M (list Session) :=
  gets (λ w, map_values (activeSessions w)).

(** The poll, written out: neither [getWarpSessions] nor the diff can
    throw, and the new state is a function of the old snapshot and the
    sessions that [getWarpSessions] returned. *)
Definition polled (current : list Session) (w : World) : Changes * World :=
  let currentSessionIds := set_from (s_sessionId <$> current) in
  let closed :=
    filter (λ sessionId, ¬ set_has currentSessionIds sessionId) (lastKnownSessions w) in
  ({| newSessions :=
        filter (λ session, ¬ set_has (lastKnownSessions w) (s_sessionId session)) current;
      closedSessions := closed;
      allSessions := current |},
   set_activeSessions
     (foldl map_delete
        (foldl (λ m session, map_set m (s_sessionId session) session)
           (activeSessions w) current) closed)
     (set_lastKnownSessions currentSessionIds w)).

(** The state of a freshly constructed manager. *)
Definition constructed (w : World) : World :=
  set_lastKnownSessions [] (set_activeSessions [] w).

(** A run of polls, one probe outcome per tick. *)
Definition polls (probes : list Probe) (w : World) : World :=
  foldl (λ w probe, (detectSessionChanges probe w).2) w probes.

End WarpSessionManager.

(** ** TaskTracker *)

Module TaskTracker.

Definition emptyData : Data := {| currentTask := None; history := [] |}.

Definition defaultConfig : Config :=
  {| displayStyle := "progress-bar"; updateInterval := 30;
     notifications := true; autoSave := true; progressBarLength := 30 |}.

(** [fs.readJson] fails on a missing or unparsable file; the failure is
    caught and the empty data returned. *)
Definition loaded (w : World) : Data := default emptyData (dataFile w).

Definition loadData : M Data := gets loaded.

Definition saveData (data : Data) : M unit := λ w,
  if diskWritable w then (Returned (), set_dataFile (Some data) w)
  else (Thrown IOError, w).

Definition loadConfig : M Config :=
  gets (λ w, default defaultConfig (configFile w)).

(** [Math.round((percentage / 100) * length)] on integers, then
    [String.prototype.repeat], which throws a RangeError on a negative
    count.  The rounding is that of the exact quotient.  At length 30, the
    length [displayTask] passes and the only one the theorems use, it
    gives the cells of the source's rounding of a double for the integer
    percentages from -50 to 200, and beyond them the same sign of the two
    counts; at other lengths the two roundings can differ by a cell. *)
Definition createProgressBar (percentage length : Z) : M (Z * Z) :=
  let filled := ((2 * percentage * length + 100) `div` 200)%Z in
  let empty := (length - filled)%Z in
  if bool_decide (filled < 0)%Z then throw RangeErrorInvalidCount
  else if bool_decide (empty < 0)%Z then throw RangeErrorInvalidCount
  else mret (filled, empty).

Definition displayTask (task : Task) (detailed : bool) : M unit :=
  createProgressBar (progress task) 30;;
  console_log (LogBox task detailed).

Definition newManualTask (taskName description : string) (now : Z) : Task :=
  {| id := pretty now; name := taskName; description := description;
     startTime := now; endTime := None; progress := 0; updates := [];
     status := InProgress; completionMessage := None;
     sessionId := None; sessionInfo := None |}.

Definition startTask (taskName description : string) : M unit :=
  data ← loadData;
  match currentTask data with
  | Some current =>
      console_log WarnTaskAlreadyInProgress;;
      displayTask current false;;
      console_log WarnCompleteOrStopFirst;;
      mret ()
  | None =>
      now ← Date_now;
      let newTask := newManualTask taskName description now in
      saveData {| currentTask := Some newTask; history := history data |};;
      console_log LogStartedTracking;;
      displayTask newTask false;;
      config ← loadConfig;
      when (notifications config) (notify ("Started tracking: " +:+ taskName))
  end.

(** [task.progress = percentage; task.updates.push({timestamp, progress, message})] *)
Definition recordProgress (task : Task) (percentage : Z) (message : string)
    (now : Z) : Task :=
  {| id := id task; name := name task; description := description task;
     startTime := startTime task; endTime := endTime task;
     progress := percentage;
     updates := updates task ++
       [{| u_timestamp := now; u_progress := percentage; u_message := message |}];
     status := status task; completionMessage := completionMessage task;
     sessionId := sessionId task; sessionInfo := sessionInfo task |}.

Definition updateProgress (percentage : Z) (message : string) : M unit :=
  data ← loadData;
  match currentTask data with
  | None => console_log ErrNoActiveTaskFound;; mret ()
  | Some current =>
      if bool_decide (percentage < 0)%Z || bool_decide (percentage > 100)%Z then
        console_log ErrProgressRange;; mret ()
      else
        let previousProgress := progress current in
        now ← Date_now;
        let current' := recordProgress current percentage message now in
        saveData {| currentTask := Some current'; history := history data |};;
        console_log LogProgressUpdated;;
        displayTask current' false;;
        let change := (percentage - previousProgress)%Z in
        when (bool_decide (change > 0)%Z) (console_log (LogProgressChange change));;
        config ← loadConfig;
        when (notifications config && bool_decide (change >= 25)%Z)
          (notify (name current' +:+ ": " +:+ pretty percentage +:+ "% complete"))
  end.

Definition showStatus : M unit :=
  data ← loadData;
  match currentTask data with
  | None => console_log WarnNoActiveTask;; mret ()
  | Some current => console_log LogCurrentStatus;; displayTask current true
  end.

(** [task.endTime = now; task.status = 'completed'; task.progress = 100;
    if (message) task.completionMessage = message] *)
Definition markCompleted (task : Task) (message : string) (now : Z) : Task :=
  {| id := id task; name := name task; description := description task;
     startTime := startTime task; endTime := Some now;
     progress := 100; updates := updates task; status := Completed;
     completionMessage :=
       if decide (message = "") then completionMessage task else Some message;
     sessionId := sessionId task; sessionInfo := sessionInfo task |}.

Definition completeTask (message : string) : M unit :=
  data ← loadData;
  match currentTask data with
  | None => console_log ErrNoActiveTaskToComplete;; mret ()
  | Some current =>
      now ← Date_now;
      let done := markCompleted current message now in
      (* Add to history *)
      let data' := {| currentTask := None; history := done :: history data |} in
      saveData data';;
      console_log LogTaskCompleted;;
      displayTask done false;;
      config ← loadConfig;
      when (notifications config) (notify ("Task completed: " +:+ name done))
  end.

(** [task.endTime = now; task.status = 'stopped'] *)
Definition markStopped (task : Task) (now : Z) : Task :=
  {| id := id task; name := name task; description := description task;
     startTime := startTime task; endTime := Some now;
     progress := progress task; updates := updates task; status := Stopped;
     completionMessage := completionMessage task;
     sessionId := sessionId task; sessionInfo := sessionInfo task |}.

Definition stopTask : M unit :=
  data ← loadData;
  match currentTask data with
  | None => console_log ErrNoActiveTaskToStop;; mret ()
  | Some current =>
      now ← Date_now;
      let stopped := markStopped current now in
      saveData {| currentTask := None; history := stopped :: history data |};;
      console_log LogTaskStopped
  end.

(** *** Automatic task management *)

Definition newSessionTask (session : Session) (now : Z) : Task :=
  {| id := s_sessionId session +:+ "_" +:+ pretty now;
     name := s_taskName session;
     description :=
       "Auto-generated task for " +:+ s_projectName session +:+
       String.String "010"%char ("Working directory: " +:+ s_workingDir session);
     startTime := now; endTime := None; progress := 0; updates := [];
     status := InProgress; completionMessage := None;
     sessionId := Some (s_sessionId session);
     sessionInfo := Some {| si_windowId := s_windowId session;
                            si_projectName := s_projectName session;
                            si_workingDir := s_workingDir session;
                            si_title := s_title session |} |}.

Definition createTaskForSession (session : Session) : M (option Task) :=
  try_catch
    (tasks ← gets activeTasks;
     (* Check if we already have a task for this session *)
     match map_get tasks (s_sessionId session) with
     | Some existing => mret (Some existing)
     | None =>
         now ← Date_now;
         let newTask := newSessionTask session now in
         (* Add to active tasks map *)
         modify (λ w, set_activeTasks
           (map_set (activeTasks w) (s_sessionId session) newTask) w);;
         config ← loadConfig;
         when (notifications config)
           (notify ("Auto-created task: " +:+ s_taskName session));;
         mret (Some newTask)
     end)
    (λ error, console_log (ErrCreatingTaskForSession error);; mret None).

(** [data.currentTask && data.currentTask.sessionId === sessionId] *)
Definition isCurrentOfSession (data : Data) (sid : string) : bool :=
  match currentTask data with
  | Some current => bool_decide (sessionId current = Some sid)
  | None => false
  end.

Definition handleClosedSession (sid : string) : M unit :=
  try_catch
    (tasks ← gets activeTasks;
     match map_get tasks sid with
     | None => mret ()
     | Some task =>
         (* Mark task as stopped and move to history; the object is the
            one held by the map *)
         now ← Date_now;
         let task' := markStopped task now in
         modify (λ w, set_activeTasks (map_set (activeTasks w) sid task') w);;
         data ← loadData;
         let history' := task' :: history data in
         (* If this was the current task, clear it *)
         let current' :=
           if isCurrentOfSession data sid then None else currentTask data in
         saveData {| currentTask := current'; history := history' |};;
         modify (λ w, set_activeTasks (map_delete (activeTasks w) sid) w);;
         config ← loadConfig;
         when (notifications config)
           (notify ("Task auto-stopped: " +:+ name task'))
     end)
    (λ error, console_log (ErrHandlingClosedSession error)).

Definition getActiveSessionTasks : M (list Task) :=
  gets (λ w, map_values (activeTasks w)).

Definition getTaskForSession (sid : string) : M (option Task) :=
  gets (λ w, map_get (activeTasks w) sid).

Definition updateSessionTaskProgress (sid : string) (percentage : Z)
    (message : string) : M Task :=
  tasks ← gets activeTasks;
  match map_get tasks sid with
  | None => throw (Error ("No task found for session " +:+ sid))
  | Some task =>
      if bool_decide (percentage < 0)%Z || bool_decide (percentage > 100)%Z then
        throw (Error "Progress percentage must be between 0 and 100")
      else
        let previousProgress := progress task in
        now ← Date_now;
        let task' := recordProgress task percentage message now in
        (* Update the active task *)
        modify (λ w, set_activeTasks (map_set (activeTasks w) sid task') w);;
        (* Also update in data if this is the current task *)
        data ← loadData;
        when (isCurrentOfSession data sid)
          (saveData {| currentTask := Some task'; history := history data |});;
        config ← loadConfig;
        let change := (percentage - previousProgress)%Z in
        when (notifications config && bool_decide (change >= 25)%Z)
          (notify (name task' +:+ ": " +:+ pretty percentage +:+ "% complete"));;
        mret task'
  end.

Definition setCurrentTaskFromSession (sid : string) : M Task :=
  tasks ← gets activeTasks;
  match map_get tasks sid with
  | None => throw (Error ("No task found for session " +:+ sid))
  | Some task =>
      data ← loadData;
      saveData {| currentTask := Some task; history := history data |};;
      mret task
  end.

Record ScanResult := {
  newTasks : nat;
  closedTasks : nat;
  scannedSessions : list Session   (* [allSessions] *)
}.

Fixpoint forEach {A} (f : A → M unit) (l : list A) : M unit :=
  match l with
  | [] => mret ()
  | x :: l' => f x;; forEach f l'
  end.

Definition scanAndCreateTasks (probe : WarpSessionManager.Probe) : M ScanResult :=
  try_catch
    (changes ← WarpSessionManager.detectSessionChanges probe;
     (* Create tasks for new sessions *)
     forEach (λ session, createTaskForSession session;; mret ())
       (WarpSessionManager.newSessions changes);;
     (* Clean up tasks for closed sessions *)
     forEach handleClosedSession (WarpSessionManager.closedSessions changes);;
     mret {| newTasks := length (WarpSessionManager.newSessions changes);
             closedTasks := length (WarpSessionManager.closedSessions changes);
             scannedSessions := WarpSessionManager.allSessions changes |})
    (λ error, console_log (ErrScanningForTasks error);;
              mret {| newTasks := 0; closedTasks := 0; scannedSessions := [] |}).

(** *** Calls a client can make between two points of interest *)

Inductive Op :=
  | OpStartTask (taskName description : string)
  | OpUpdateProgress (percentage : Z) (message : string)
  | OpCompleteTask (message : string)
  | OpStopTask
  | OpShowStatus
  | OpCreateTaskForSession (session : Session)
  | OpHandleClosedSession (sid : string)
  | OpUpdateSessionTaskProgress (sid : string) (percentage : Z) (message : string)
  | OpSetCurrentTaskFromSession (sid : string)
  (* the environment moving on *)
  | EnvClock (t : Z)
  | EnvDiskWritable (b : bool)
  | EnvDataFile (d : option Data).

Definition run (op : Op) (w : World) : World :=
  match op with
  | OpStartTask n d => (startTask n d w).2
  | OpUpdateProgress p m => (updateProgress p m w).2
  | OpCompleteTask m => (completeTask m w).2
  | OpStopTask => (stopTask w).2
  | OpShowStatus => (showStatus w).2
  | OpCreateTaskForSession s => (createTaskForSession s w).2
  | OpHandleClosedSession sid => (handleClosedSession sid w).2
  | OpUpdateSessionTaskProgress sid p m => (updateSessionTaskProgress sid p m w).2
  | OpSetCurrentTaskFromSession sid => (setCurrentTaskFromSession sid w).2
  | EnvClock t => set_clock t w
  | EnvDiskWritable b => set_diskWritable b w
  | EnvDataFile d => set_dataFile d w
  end.

Definition runs (ops : list Op) (w : World) : World := foldl (λ w op, run op w) w ops.

Definition retires (sid : string) (op : Op) : bool :=
  match op with
  | OpHandleClosedSession sid' => bool_decide (sid' = sid)
  | _ => false
  end.

(** A task with id [i] is bound to the session [sid]. *)
Definition bound_to (w : World) (sid i : string) : Prop :=
  ∃ task, map_get (activeTasks w) sid = Some task ∧ id task = i.

(** The tasks a store holds. *)
Definition storedTasks (d : Data) : list Task :=
  option_list (currentTask d) ++ history d.

End TaskTracker.

(** ** Example worlds and sessions *)

Definition freshWorld : World :=
  {| dataFile := Some TaskTracker.emptyData; configFile := Some TaskTracker.defaultConfig;
     diskWritable := true; clock := 1700000000000;
     console := []; notified := [];
     activeTasks := []; activeSessions := []; lastKnownSessions := [] |}.

Definition session1 : Session :=
  {| s_title := "zsh - ~/projects/alpha"; s_windowId := 1; s_sessionId := "warp_1";
     s_workingDir := "~/projects/alpha"; s_projectName := "Alpha";
     s_taskName := "Alpha Development (10:00 AM)"; s_lastSeen := 1700000000000 |}.

Definition session2 : Session :=
  {| s_title := "zsh - ~/projects/beta"; s_windowId := 2; s_sessionId := "warp_2";
     s_workingDir := "~/projects/beta"; s_projectName := "Beta";
     s_taskName := "Beta Development (10:05 AM)"; s_lastSeen := 1700000300000 |}.

Definition taskB : Task := TaskTracker.newManualTask "B" "" 1699999999000.

(** A store whose current task is the manual task "B". *)
Definition worldWithB : World :=
  set_dataFile (Some {| currentTask := Some taskB; history := [] |}) freshWorld.

(** Task "B" is current and a task is bound to the window [session1]. *)
Definition worldWithBAndSession : World :=
  (TaskTracker.createTaskForSession session1 worldWithB).2.

(** Things that happen between two sightings of the window [session1]:
    manual work, progress on the session's task, another window coming
    and going, a switch, a disk that fails for a while. *)
Definition interleaving : list TaskTracker.Op :=
  [ TaskTracker.OpStartTask "A" "";
    TaskTracker.EnvClock 1700000600000;
    TaskTracker.OpUpdateSessionTaskProgress "warp_1" 40 "halfway";
    TaskTracker.OpCreateTaskForSession session2;
    TaskTracker.EnvDiskWritable false;
    TaskTracker.OpHandleClosedSession "warp_2";
    TaskTracker.EnvDiskWritable true;
    TaskTracker.OpSetCurrentTaskFromSession "warp_1";
    TaskTracker.OpCompleteTask "shipped" ].

(** [console.log] of several lines in a row. *)
Definition logged (lines : list ConsoleLine) (w : World) : World :=
  set_console (console w ++ lines) w.

(** The world after a first tick that saw two windows. *)
Definition polledWorld : World :=
  (WarpSessionManager.detectSessionChanges
     (WarpSessionManager.ProbeOk [session1; session2]) freshWorld).2.

(** ** Further code of the two classes and of their callers *)

(** [String.prototype.split] with a one-character separator. *)
Fixpoint split_char (sep : ascii) (s : string) : list string :=
  match s with
  | EmptyString => [""]
  | String c s' =>
      if decide (c = sep) then "" :: split_char sep s'
      else match split_char sep s' with
           | piece :: pieces => String c piece :: pieces
           | [] => [String c ""]
           end
  end.

(** The text that [String.prototype.replace] puts in place of a match of
    a pattern without capture groups, given the replacement string as
    [template]: [$$] stands for a dollar, [$&] for the matched text,
    [$`] for the text before the match, [$'] for the text after it, and
    any other dollar for itself. *)
Fixpoint substitute (template matched before after : string) : string :=
  match template with
  | EmptyString => ""
  | String c t =>
      if decide (c = "$"%char) then
        match t with
        | EmptyString => String c ""
        | String d t' =>
            if decide (d = "$"%char) then
              String "$" (substitute t' matched before after)
            else if decide (d = "&"%char) then
              matched +:+ substitute t' matched before after
            else if decide (d = "`"%char) then
              before +:+ substitute t' matched before after
            else if decide (d = "'"%char) then
              after +:+ substitute t' matched before after
            else String c (substitute t matched before after)
        end
      else String c (substitute t matched before after)
  end.

(** [WarpSessionManager.extractProjectName].  The choice of the path
    component is embedded; the display formatting of the chosen name
    ([formatProjectName], two regular-expression replacements and a trim)
    is a parameter, as is [home], the value of
    [process.env.HOME || '']. *)
Module ProjectName.
Section WithFormat.

Variable formatProjectName : string → string.
Variable home : string.

(** [['src', 'lib', 'bin', 'node_modules', '.git'].includes(part)] *)
Definition skipped (part : string) : bool :=
  bool_decide (part ∈ ["src"; "lib"; "bin"; "node_modules"; ".git"]).

Definition projectIndicators : list string :=
  ["src"; "projects"; "code"; "development"; "dev"; "work"].

Definition isIndicator (part : string) : bool :=
  bool_decide (part ∈ projectIndicators).

(** [workingDir.replace(/^~/, home).split('/').filter(part => part.length > 0)];
    the pattern matches a tilde at the start, with nothing before it and
    the rest of the path after it. *)
Definition pathParts (workingDir : string) : list string :=
  let projectPath :=
    match workingDir with
    | String "~" rest => substitute home "~" "" rest +:+ rest
    | _ => workingDir
    end in
  filter (λ part, part ≠ "") (split_char "/" projectPath).

(** The iterations [i = n - 1, ..., 0] of the [for] loop; [None] when the
    loop runs to its end without returning. *)
Fixpoint scan (parts : list string) (n : nat) : option string :=
  match n with
  | 0 => None
  | S i =>
      let part := default "" (parts !! i) in
      (* Skip common non-project directories *)
      if skipped part then scan parts i
      (* If we find a project indicator, the next part is likely the project name *)
      else if bool_decide (0 < i)
              && isIndicator (default "" (parts !! (i - 1))) then
        Some (formatProjectName part)
      (* Return the last meaningful directory name *)
      else if bool_decide (i = length parts - 1) then Some (formatProjectName part)
      else scan parts i
  end.

Definition extractProjectName (workingDir : string) : string :=
  if bool_decide (workingDir = "") || bool_decide (workingDir = "~")
     || bool_decide (workingDir = "/") then "General Tasks"
  else
    let parts := pathParts workingDir in
    match scan parts (length parts) with
    | Some projectName => projectName
    | None => formatProjectName (default "Unknown Project" (last parts))
    end.

End WithFormat.

(** The absolute path [/c1/c2/.../cn]. *)
Definition absolute (components : list string) : string :=
  foldr (λ c rest, String "/" (c +:+ rest)) "" components.

(** A directory name: not empty, no slash in it. *)
Fixpoint slashFree (s : string) : bool :=
  match s with
  | EmptyString => true
  | String c s' => negb (bool_decide (c = "/"%char)) && slashFree s'
  end.

Definition isComponent (s : string) : bool :=
  negb (bool_decide (s = "")) && slashFree s.

(** A text without a dollar sign. *)
Fixpoint dollarFree (s : string) : bool :=
  match s with
  | EmptyString => true
  | String c s' => negb (bool_decide (c = "$"%char)) && dollarFree s'
  end.

End ProjectName.

(** Read-only views of [TaskTracker]. *)
Module TaskTrackerViews.

Import TaskTracker.

(** [calculateDuration(startTime, endTime = null)], on timestamps in
    milliseconds; [%] is the remainder that takes the sign of the
    dividend. *)
Definition calculateDuration (startTime : Z) (endTime : option Z) : M string :=
  end_ ← match endTime with Some e => mret e | None => Date_now end;
  let diffMs := (end_ - startTime)%Z in
  let hours := (diffMs `div` (1000 * 60 * 60))%Z in
  let minutes := ((diffMs `rem` (1000 * 60 * 60)) `div` (1000 * 60))%Z in
  if bool_decide (hours > 0)%Z then
    mret (pretty hours +:+ "h " +:+ pretty minutes +:+ "m")
  else mret (pretty minutes +:+ "m").

Inductive Suggestion :=
  | SuggestCurrent (task : Task)                        (* type: 'current' *)
  | Suggested (task : Task) (session : option Session)  (* type: 'suggested' *)
  | SuggestNone.                                        (* type: 'none' *)

(** [getCurrentOrSuggestedTask]; [activeSession] is what
    [sessionManager.getActiveWarpSession()] resolved to (a session or
    null). *)
Definition getCurrentOrSuggestedTask (activeSession : option Session) : M Suggestion :=
  data ← loadData;
  match currentTask data with
  | Some current => mret (SuggestCurrent current)
  | None =>
      tasks ← gets activeTasks;
      (* Return first active task if any *)
      let firstActive :=
        match map_values tasks with
        | task :: _ => Suggested task None
        | [] => SuggestNone
        end in
      match activeSession with
      | Some session =>
          match map_get tasks (s_sessionId session) with
          | Some suggestedTask => mret (Suggested suggestedTask (Some session))
          | None => mret firstActive
          end
      | None => mret firstActive
      end
  end.

End TaskTrackerViews.

(** The task handlers that [ElectronTaskTracker.setupIpcHandlers]
    registers: each awaits the tracker's method inside a [try] and answers
    [{ success: true }], or [{ success: false, error }] from the [catch]
    (the reply carries [error.message]; the exception itself stands for
    it here). *)
Module ElectronIpc.

Import TaskTracker.

Record Reply := {
  success : bool;
  error : option JsError
}.

Definition handle {A} (request : M A) : M Reply :=
  try_catch
    (request;; mret {| success := true; error := None |})
    (λ e, mret {| success := false; error := Some e |}).

Inductive Request :=
  | StartTask (taskName description : string)
  | UpdateProgress (percentage : Z) (message : string)
  | CompleteTask (message : string)
  | StopTask.

Definition invoke (request : Request) : M Reply :=
  match request with
  | StartTask taskName description => handle (startTask taskName description)
  | UpdateProgress percentage message => handle (updateProgress percentage message)
  | CompleteTask message => handle (completeTask message)
  | StopTask => handle stopTask
  end.

End ElectronIpc.

(** A formatter to run the examples with: the name as it is. *)
Definition plainName (name : string) : string := name.

(** ** Predicates on tasks, worlds and runs *)

(** A task that has ended. *)
Definition terminated (task : Task) : Prop :=
  status task ≠ InProgress ∧ is_Some (endTime task).

(** A task whose progress bar can be drawn. *)
Definition displayable (task : Task) : Prop := (0 ≤ progress task ≤ 100)%Z.

(** Every task the tracker may come to display can be drawn. *)
Definition drawable (w : World) : Prop :=
  (∀ task, currentTask (TaskTracker.loaded w) = Some task → displayable task) ∧
  Forall displayable (map_values (activeTasks w)).

(** Every bound task carries the id of the session it is bound to. *)
Definition bindings_consistent (w : World) : Prop :=
  ∀ sid task, map_get (activeTasks w) sid = Some task → sessionId task = Some sid.

(** The one step that is not the tracker's: somebody else rewriting
    [tasks.json]. *)
Definition edits_store (op : TaskTracker.Op) : bool :=
  match op with
  | TaskTracker.EnvDataFile _ => true
  | _ => false
  end.

(** A run of scans, one probe outcome per scan. *)
Definition scans (probes : list WarpSessionManager.Probe) (w : World) : World :=
  foldl (λ w probe, (TaskTracker.scanAndCreateTasks probe w).2) w probes.

(** The percentages that [updateProgress] accepts. *)
Definition inRange (percentage : Z) : bool :=
  negb (bool_decide (percentage < 0)%Z || bool_decide (percentage > 100)%Z).

(** ** Facts about the containers *)

Section JsFacts.

Lemma set_has_elem_of (s : JsSet) (k : string) : set_has s k ↔ k ∈ s.
Proof. unfold set_has. apply bool_decide_spec. Qed.

Lemma elem_of_set_add (s : JsSet) (k x : string) :
  x ∈ set_add s k ↔ x ∈ s ∨ x = k.
Proof.
  unfold set_add. destruct (set_has s k) eqn:E.
  - split; [auto|]. intros [?| ->]; [done|].
    apply set_has_elem_of. by rewrite E.
  - rewrite elem_of_app, list_elem_of_singleton. tauto.
Qed.

Lemma elem_of_foldl_set_add (ks : list string) (acc : JsSet) (x : string) :
  x ∈ foldl set_add acc ks ↔ x ∈ acc ∨ x ∈ ks.
Proof.
  revert acc. induction ks as [|k ks IH]; intros acc; simpl.
  - rewrite elem_of_nil. tauto.
  - rewrite IH, elem_of_set_add, elem_of_cons. tauto.
Qed.

Lemma elem_of_set_from (ks : list string) (x : string) :
  x ∈ set_from ks ↔ x ∈ ks.
Proof.
  unfold set_from. rewrite elem_of_foldl_set_add, elem_of_nil. tauto.
Qed.

Lemma NoDup_set_add (s : JsSet) (k : string) : NoDup s → NoDup (set_add s k).
Proof.
  intros Hs. unfold set_add. destruct (set_has s k) eqn:E; [done|].
  apply NoDup_app. split_and!; [done| |apply NoDup_singleton].
  intros x Hx ->%list_elem_of_singleton.
  apply set_has_elem_of in Hx. by rewrite E in Hx.
Qed.

Lemma NoDup_set_from (ks : list string) : NoDup (set_from ks).
Proof.
  unfold set_from. generalize (NoDup_nil_2 (A:=string)).
  generalize (@nil string). induction ks as [|k ks IH]; intros acc Hacc; simpl.
  - done.
  - apply IH. by apply NoDup_set_add.
Qed.

Context {V : Type}.
Implicit Types (m : JsMap V) (k x : string) (v : V).

Lemma map_get_keys m k : is_Some (map_get m k) ↔ k ∈ map_keys m.
Proof.
  unfold map_keys. induction m as [|[k' v'] m IH]; simpl.
  - rewrite elem_of_nil. split; [by intros [? ?]|done].
  - rewrite elem_of_cons. destruct (decide (k' = k)) as [->|Hne].
    + split; [auto|eauto].
    + rewrite IH. split; [auto|]. by intros [->|?].
Qed.

Lemma map_get_set_eq m k v : map_get (map_set m k v) k = Some v.
Proof.
  induction m as [|[k' v'] m IH]; simpl.
  - by rewrite decide_True.
  - destruct (decide (k' = k)) as [->|Hne]; simpl.
    + by rewrite decide_True.
    + by rewrite decide_False.
Qed.

Lemma map_get_set_ne m k k' v : k ≠ k' → map_get (map_set m k v) k' = map_get m k'.
Proof.
  intros Hne. induction m as [|[k0 v0] m IH]; simpl.
  - by rewrite decide_False.
  - destruct (decide (k0 = k)) as [->|Hne0]; simpl.
    + by rewrite !decide_False.
    + by rewrite IH.
Qed.

Lemma map_get_delete_eq m k : map_get (map_delete m k) k = None.
Proof.
  induction m as [|[k0 v0] m IH]; simpl; [done|].
  destruct (decide (k0 = k)) as [->|Hne0]; simpl; [done|].
  by rewrite decide_False.
Qed.

Lemma map_get_delete_ne m k k' : k ≠ k' → map_get (map_delete m k) k' = map_get m k'.
Proof.
  intros Hne. induction m as [|[k0 v0] m IH]; simpl; [done|].
  destruct (decide (k0 = k)) as [->|Hne0]; simpl.
  - by rewrite decide_False.
  - by rewrite IH.
Qed.

Lemma elem_of_keys_map_set m k v x :
  x ∈ map_keys (map_set m k v) ↔ x = k ∨ x ∈ map_keys m.
Proof.
  rewrite <- !map_get_keys. destruct (decide (k = x)) as [->|Hne].
  - rewrite map_get_set_eq. split; [auto|eauto].
  - rewrite map_get_set_ne by done. split; [auto|]. by intros [->|?].
Qed.

Lemma elem_of_keys_map_delete m k x :
  x ∈ map_keys (map_delete m k) ↔ x ≠ k ∧ x ∈ map_keys m.
Proof.
  rewrite <- !map_get_keys. destruct (decide (k = x)) as [->|Hne].
  - rewrite map_get_delete_eq. split; [by intros [? ?]|by intros [? ?]].
  - rewrite map_get_delete_ne by done. split; [auto|by intros [? ?]].
Qed.

Lemma elem_of_keys_foldl_set {A} (key : A → string) (val : A → V) (l : list A) m x :
  x ∈ map_keys (foldl (λ m a, map_set m (key a) (val a)) m l)
  ↔ x ∈ map_keys m ∨ x ∈ key <$> l.
Proof.
  revert m. induction l as [|a l IH]; intros m; simpl.
  - rewrite elem_of_nil. tauto.
  - rewrite IH, elem_of_keys_map_set, elem_of_cons. tauto.
Qed.

Lemma elem_of_keys_foldl_delete (ks : list string) m x :
  x ∈ map_keys (foldl map_delete m ks) ↔ x ∈ map_keys m ∧ x ∉ ks.
Proof.
  revert m. induction ks as [|k ks IH]; intros m; simpl.
  - rewrite elem_of_nil. tauto.
  - rewrite IH, elem_of_keys_map_delete, not_elem_of_cons. tauto.
Qed.

End JsFacts.

(** ** The session registry *)

Section Registry.

Import WarpSessionManager.

Implicit Types (w : World) (probe : Probe).

Lemma detectSessionChanges_ok w current :
  detectSessionChanges (ProbeOk current) w
  = (Returned (polled current w).1, (polled current w).2).
Proof. reflexivity. Qed.

Lemma detectSessionChanges_failed w error :
  let w1 := set_console (console w ++ [ErrGettingWarpSessions error]) w in
  detectSessionChanges (ProbeFailed error) w
  = (Returned (polled [] w1).1, (polled [] w1).2).
Proof. reflexivity. Qed.

Lemma polled_snapshot current w :
  list_to_set (lastKnownSessions (polled current w).2)
  =@{gset string} list_to_set (s_sessionId <$> current).
Proof.
  apply set_eq. intros x. simpl.
  by rewrite !elem_of_list_to_set, elem_of_set_from.
Qed.

Lemma polled_in_sync current w :
  list_to_set (map_keys (activeSessions w))
    =@{gset string} list_to_set (lastKnownSessions w) →
  list_to_set (map_keys (activeSessions (polled current w).2))
    =@{gset string} list_to_set (lastKnownSessions (polled current w).2).
Proof.
  intros Hsync. apply set_eq. intros x.
  assert (Hx : x ∈ map_keys (activeSessions w) ↔ x ∈ lastKnownSessions w).
  { by rewrite <- !(elem_of_list_to_set (C:=gset string)), Hsync. }
  simpl. rewrite !elem_of_list_to_set, elem_of_set_from.
  rewrite elem_of_keys_foldl_delete, elem_of_keys_foldl_set, list_elem_of_filter.
  rewrite set_has_elem_of, elem_of_set_from, Hx.
  destruct (decide (x ∈ s_sessionId <$> current)); tauto.
Qed.

Lemma polls_snoc probes probe w :
  polls (probes ++ [probe]) w = (detectSessionChanges probe (polls probes w)).2.
Proof. unfold polls. by rewrite foldl_snoc. Qed.

Lemma detectSessionChanges_in_sync probe w :
  list_to_set (map_keys (activeSessions w))
    =@{gset string} list_to_set (lastKnownSessions w) →
  list_to_set (map_keys (activeSessions (detectSessionChanges probe w).2))
    =@{gset string} list_to_set (lastKnownSessions (detectSessionChanges probe w).2).
Proof.
  intros Hsync. destruct probe as [current|error].
  - rewrite detectSessionChanges_ok. by apply polled_in_sync.
  - rewrite detectSessionChanges_failed. by apply polled_in_sync.
Qed.

Lemma polls_in_sync probes w :
  list_to_set (map_keys (activeSessions w))
    =@{gset string} list_to_set (lastKnownSessions w) →
  list_to_set (map_keys (activeSessions (polls probes w)))
    =@{gset string} list_to_set (lastKnownSessions (polls probes w)).
Proof.
  induction probes as [|probe probes IH] using rev_ind; intros Hsync; [done|].
  rewrite polls_snoc. apply detectSessionChanges_in_sync. by apply IH.
Qed.

Lemma filter_all {A} (P : A → Prop) `{∀ x, Decision (P x)} (l : list A) :
  (∀ x, x ∈ l → P x) → filter P l = l.
Proof.
  induction l as [|a l IH]; intros Hall; [done|].
  rewrite filter_cons_True by (apply Hall; left).
  f_equal. apply IH. intros x Hx. apply Hall. by right.
Qed.

(** C1 (as the code has it): a failed probe is turned into an empty
    session list by [getWarpSessions], so the poll reports no appeared
    session, reports every session id of the previous snapshot as
    disappeared, and leaves an empty snapshot behind. *)
Theorem probe_failure_is_empty_inventory w error :
  ∃ changes w',
    detectSessionChanges (ProbeFailed error) w = (Returned changes, w') ∧
    newSessions changes = [] ∧
    closedSessions changes = lastKnownSessions w ∧
    allSessions changes = [] ∧
    lastKnownSessions w' = [] ∧
    activeSessions w' = foldl map_delete (activeSessions w) (lastKnownSessions w).
Proof.
  rewrite detectSessionChanges_failed. eexists _, _. split; [reflexivity|].
  assert (Hclosed : filter (λ sessionId : string, ¬ set_has (set_from []) sessionId)
                      (lastKnownSessions w) = lastKnownSessions w).
  { apply filter_all. intros x _.
    rewrite set_has_elem_of, elem_of_set_from. apply not_elem_of_nil. }
  split_and!; try done.
  cbn [polled snd activeSessions set_activeSessions set_lastKnownSessions
       set_console lastKnownSessions fmap list_fmap foldl].
  by rewrite Hclosed.
Qed.

Lemma size_diff_partition (A B : gset string) :
  size (B ∖ A) + size (A ∖ B) + size (A ∩ B) = size (A ∪ B).
Proof.
  assert (H1 : (B ∖ A) ## (A ∖ B)).
  { apply elem_of_disjoint. intros x. rewrite !elem_of_difference. tauto. }
  assert (H2 : (B ∖ A ∪ A ∖ B) ## (A ∩ B)).
  { apply elem_of_disjoint. intros x.
    rewrite elem_of_union, !elem_of_difference, elem_of_intersection. tauto. }
  rewrite <- (size_union _ _ H1), <- (size_union _ _ H2).
  f_equal. apply set_eq. intros x.
  rewrite !elem_of_union, !elem_of_difference, elem_of_intersection.
  destruct (decide (x ∈ A)), (decide (x ∈ B)); tauto.
Qed.

(** C1, counterexample: after a tick that saw two windows, a failing
    probe does not give an empty diff and does not keep the snapshot:
    both windows are reported closed and the snapshot is emptied. *)
Lemma probe_failure_loses_sessions :
  ¬ (∀ changes w',
       detectSessionChanges (ProbeFailed IOError) polledWorld = (Returned changes, w') →
       newSessions changes = [] ∧ closedSessions changes = [] ∧
       lastKnownSessions w' = lastKnownSessions polledWorld).
Proof.
  intros Hclaim.
  destruct (Hclaim _ _ eq_refl) as (_ & Hclosed & _).
  vm_compute in Hclosed. discriminate Hclosed.
Qed.

(** C4: for a poll whose probe yields [current], with [S1] the previous
    snapshot and [S2] the ids of [current], the ids of the new sessions
    are [S2 ∖ S1], the closed ids are [S1 ∖ S2], the four cardinalities
    add up, and the snapshot left behind is [S2] (so that [S1] is the
    previous probe output on the next poll). *)
Theorem diff_completeness w current :
  let S1 : gset string := list_to_set (lastKnownSessions w) in
  let S2 : gset string := list_to_set (s_sessionId <$> current) in
  ∃ changes w',
    detectSessionChanges (ProbeOk current) w = (Returned changes, w') ∧
    let appeared : gset string := list_to_set (s_sessionId <$> newSessions changes) in
    let disappeared : gset string := list_to_set (closedSessions changes) in
    appeared = S2 ∖ S1 ∧
    disappeared = S1 ∖ S2 ∧
    size appeared + size disappeared + size (S1 ∩ S2) = size (S1 ∪ S2) ∧
    list_to_set (lastKnownSessions w') = S2.
Proof.
  intros S1 S2. rewrite detectSessionChanges_ok. eexists _, _.
  split; [reflexivity|]. intros appeared disappeared.
  assert (Happ : appeared = S2 ∖ S1).
  { apply set_eq. intros x. subst appeared S1 S2. simpl.
    rewrite elem_of_difference, !elem_of_list_to_set, !list_elem_of_fmap.
    split.
    - intros (s & -> & Hs). apply list_elem_of_filter in Hs as [Hnew Hs].
      rewrite set_has_elem_of in Hnew. eauto.
    - intros [(s & -> & Hs) Hnew]. exists s. split; [done|].
      apply list_elem_of_filter. by rewrite set_has_elem_of. }
  assert (Hdis : disappeared = S1 ∖ S2).
  { apply set_eq. intros x. subst disappeared S1 S2. simpl.
    rewrite elem_of_difference, !elem_of_list_to_set, list_elem_of_filter.
    rewrite set_has_elem_of, elem_of_set_from. tauto. }
  split_and!; [done|done| |apply polled_snapshot].
  rewrite Happ, Hdis. apply size_diff_partition.
Qed.

(** C10: starting from a freshly constructed manager, after every poll
    the keys of [activeSessions] and the snapshot [lastKnownSessions]
    are the same set, which is the set of ids of the sessions that
    [getWarpSessions] returned for that poll. *)
Theorem registry_in_sync w probes probe :
  let w' := polls (probes ++ [probe]) (constructed w) in
  ∃ current,
    (getWarpSessions probe (polls probes (constructed w))).1 = Returned current ∧
    list_to_set (map_keys (activeSessions w'))
      =@{gset string} list_to_set (lastKnownSessions w') ∧
    list_to_set (lastKnownSessions w')
      =@{gset string} list_to_set (s_sessionId <$> current).
Proof.
  intros w'. subst w'.
  assert (Hsync := polls_in_sync (probes ++ [probe]) (constructed w) eq_refl).
  rewrite polls_snoc in *.
  destruct probe as [current|error].
  - exists current. split_and!; [done|done|].
    rewrite detectSessionChanges_ok. apply polled_snapshot.
  - exists []. split_and!; [done|done|].
    rewrite detectSessionChanges_failed. apply polled_snapshot.
Qed.

Lemma NoDup_fmap_filter {A B} (f : A → B) (P : A → Prop) `{∀ x, Decision (P x)}
    (l : list A) :
  NoDup (f <$> l) → NoDup (f <$> filter P l).
Proof.
  induction l as [|a l IH]; [done|].
  rewrite fmap_cons, NoDup_cons. intros [Hnotin Hl].
  rewrite filter_cons. destruct (decide (P a)); [|by apply IH].
  rewrite fmap_cons, NoDup_cons. split; [|by apply IH].
  intros (a' & Heq & Ha')%list_elem_of_fmap.
  apply list_elem_of_filter in Ha' as [_ Ha'].
  apply Hnotin, list_elem_of_fmap. eauto.
Qed.

(** The arrays of the diff have as many entries as the sets have
    elements when the probe lists each window once (the snapshot, a
    [Set], never holds an id twice). *)
Lemma diff_counts w current :
  NoDup (lastKnownSessions w) →
  NoDup (s_sessionId <$> current) →
  let changes := (polled current w).1 in
  length (newSessions changes) =
    size (list_to_set (s_sessionId <$> newSessions changes) : gset string) ∧
  length (closedSessions changes) =
    size (list_to_set (closedSessions changes) : gset string).
Proof.
  intros Hlast Hcurrent changes. split.
  - rewrite size_list_to_set, length_fmap; [done|].
    subst changes. cbn. by apply NoDup_fmap_filter.
  - rewrite size_list_to_set; [done|]. by apply NoDup_filter.
Qed.

(** The snapshot is a [Set]: no poll leaves a duplicate in it. *)
Lemma polled_snapshot_NoDup current w : NoDup (lastKnownSessions (polled current w).2).
Proof. apply NoDup_set_from. Qed.

(** The map keeps the order in which windows were first seen, the
    snapshot the order of the last probe: equal as sets only. *)
Example registry_orders_differ :
  let w := polls [ProbeOk [session1; session2]; ProbeOk [session2; session1]] freshWorld in
  map_keys (activeSessions w) = ["warp_1"; "warp_2"] ∧
  lastKnownSessions w = ["warp_2"; "warp_1"].
Proof. by vm_compute. Qed.

End Registry.

(** ** The task lifecycle *)

Section Lifecycle.

Import TaskTracker.

Implicit Types (w : World) (task current : Task) (sid : string).

Ltac mstep :=
  unfold loadData, saveData, loadConfig, Date_now, console_log, notify, when;
  unfold mbind, M_bind, mret, M_ret, gets, modify, throw, try_catch;
  cbn [dataFile configFile diskWritable clock console notified activeTasks
    activeSessions lastKnownSessions set_dataFile set_console set_notified
    set_activeTasks set_activeSessions set_lastKnownSessions set_clock
    set_diskWritable fst snd orb andb].

(** *** Rendering *)

Lemma createProgressBar_ok (p : Z) w :
  (0 ≤ p ≤ 100)%Z → ∃ bar, createProgressBar p 30 w = (Returned bar, w).
Proof.
  intros Hp. unfold createProgressBar.
  assert (0 ≤ (2 * p * 30 + 100) `div` 200 < 31)%Z as [H1 H2].
  { split; [apply Z.div_pos; lia|]. apply Z.div_lt_upper_bound; lia. }
  rewrite !bool_decide_eq_false_2 by lia. by eexists.
Qed.

Lemma displayTask_ok task (detailed : bool) w :
  (0 ≤ progress task ≤ 100)%Z →
  displayTask task detailed w = (Returned (), logged [LogBox task detailed] w).
Proof.
  intros Hp. unfold displayTask.
  destruct (createProgressBar_ok _ w Hp) as [bar Hbar].
  unfold mbind, M_bind. by rewrite Hbar.
Qed.

(** Whatever the task, displaying it touches nothing but the console. *)
Lemma displayTask_frame task (detailed : bool) w :
  ∃ c lines, displayTask task detailed w = (c, set_console lines w).
Proof.
  unfold displayTask, createProgressBar. mstep.
  destruct w. repeat case_bool_decide; by eexists _, _.
Qed.

Ltac mcase :=
  match goal with
  | |- context [displayTask ?t ?d ?w] =>
      let c := fresh "c" in
      let lines := fresh "lines" in
      let H := fresh in
      destruct (displayTask_frame t d w) as (c & lines & H);
      rewrite H; clear H; destruct c
  | |- context [if ?b then _ else _] =>
      lazymatch type of b with bool => destruct b eqn:? end
  | |- context [match ?x with Some _ => _ | None => _ end] => destruct x eqn:?
  end.

Ltac mexec := repeat (mstep; try mcase).

(** Closes a goal [∃ c w', m w = (c, w') ∧ c = _ ∧ w' = _] once [m w]
    has been evaluated. *)
Ltac ran := eexists _, _; split; [reflexivity|]; split; reflexivity.

(** *** Manual start *)

(** C3 (as the code has it): with a current task in the store,
    [startTask] changes neither the store nor the session bindings, and,
    the current task being displayable, it throws nothing: it returns
    normally after printing a warning, the box of the existing task and
    a hint. *)
Theorem start_conflict_refused w (taskName description : string) current :
  currentTask (loaded w) = Some current →
  ∃ c w',
    startTask taskName description w = (c, w') ∧
    dataFile w' = dataFile w ∧
    activeTasks w' = activeTasks w ∧
    ((0 ≤ progress current ≤ 100)%Z →
     c = Returned () ∧
     console w' = console w ++
       [WarnTaskAlreadyInProgress; LogBox current false; WarnCompleteOrStopFirst]).
Proof.
  intros Hcur. unfold startTask. mstep. rewrite Hcur. mstep.
  destruct (decide (0 ≤ progress current ≤ 100)%Z) as [Hp|Hp].
  - rewrite displayTask_ok by done. unfold logged. mstep.
    eexists _, _. split; [reflexivity|]. split_and!; try done.
    intros _. split; [done|]. by rewrite <- !app_assoc.
  - mcase; eexists _, _; (split; [reflexivity|]); by split_and!.
Qed.

Lemma start_conflict_refused_witness :
  ∃ c w',
    startTask "A" "" worldWithB = (c, w') ∧
    dataFile w' = dataFile worldWithB ∧
    activeTasks w' = activeTasks worldWithB ∧
    ((0 ≤ progress taskB ≤ 100)%Z →
     c = Returned () ∧
     console w' = console worldWithB ++
       [WarnTaskAlreadyInProgress; LogBox taskB false; WarnCompleteOrStopFirst]).
Proof.
  destruct (start_conflict_refused worldWithB "A" "" taskB eq_refl)
    as (c & w' & Hrun & Hfile & Htasks & Hok).
  exists c, w'. split_and!; [done|done|done|].
  intros _. apply Hok. simpl. lia.
Defined.

(** C3, counterexample: starting "A" while "B" is current does not
    throw; the caller gets the very completion it gets from a start that
    went through. *)
Lemma start_conflict_not_an_error :
  (startTask "A" "" worldWithB).1 = (startTask "A" "" freshWorld).1 ∧
  ¬ (∃ e, (startTask "A" "" worldWithB).1 = Thrown e).
Proof.
  split; [by vm_compute|].
  intros [e He]. vm_compute in He. discriminate He.
Qed.

(** *** Manual update *)

(** C6 (as the code has it): [updateProgress] never throws on a missing
    current task or on a percentage outside [0,100]: it prints an error
    line and returns normally, with the store untouched.  For a
    percentage within [0,100] and a writable store it returns normally
    and the stored current task has the new progress (whatever the old
    one was) and exactly one more update entry; when the write fails the
    exception of [saveData] escapes and nothing has changed. *)
Theorem update_progress_cases w (percentage : Z) (message : string) :
  ∃ c w',
    updateProgress percentage message w = (c, w') ∧
    match currentTask (loaded w) with
    | None => c = Returned () ∧ w' = logged [ErrNoActiveTaskFound] w
    | Some current =>
        if decide (0 ≤ percentage ≤ 100)%Z then
          if diskWritable w then
            c = Returned () ∧
            ∃ current',
              loaded w' = {| currentTask := Some current'; history := history (loaded w) |} ∧
              progress current' = percentage ∧
              updates current' = updates current ++
                [{| u_timestamp := clock w; u_progress := percentage;
                    u_message := message |}] ∧
              id current' = id current ∧ status current' = status current
          else c = Thrown IOError ∧ w' = w
        else c = Returned () ∧ w' = logged [ErrProgressRange] w
    end.
Proof.
  unfold updateProgress. mstep.
  destruct (currentTask (loaded w)) as [current|]; [|ran].
  destruct (decide (0 ≤ percentage ≤ 100)%Z) as [Hp|Hp].
  - rewrite !bool_decide_eq_false_2 by lia. mstep.
    destruct (diskWritable w); [|ran].
    rewrite displayTask_ok by (simpl; lia). unfold logged. mstep.
    repeat mcase; mstep; eexists _, _; (split; [reflexivity|]);
      (split; [done|]); eexists; by split_and!.
  - assert (bool_decide (percentage < 0)%Z || bool_decide (percentage > 100)%Z = true)
      as ->.
    { apply orb_true_iff. rewrite !bool_decide_eq_true. lia. }
    ran.
Qed.

(** C6, counterexample: neither the update without a current task nor
    the updates to -1 and to 101 throw anything. *)
Lemma update_progress_not_an_error :
  ¬ (∃ e, (updateProgress 50 "" freshWorld).1 = Thrown e) ∧
  ¬ (∃ e, (updateProgress (-1) "" worldWithB).1 = Thrown e) ∧
  ¬ (∃ e, (updateProgress 101 "" worldWithB).1 = Thrown e).
Proof.
  split_and!; intros [e He]; vm_compute in He; discriminate He.
Qed.

(** *** Manual completion *)

(** C5 (as the code has it): with a current task and a writable store,
    [completeTask] returns normally and the store then has no current
    task and, at index 0 of the history, the retired task with progress
    100, status completed and [endTime] set; without a current task it
    throws nothing: it prints an error line and returns normally, the
    store untouched. *)
Theorem complete_task_cases w (message : string) :
  ∃ c w',
    completeTask message w = (c, w') ∧
    match currentTask (loaded w) with
    | None => c = Returned () ∧ w' = logged [ErrNoActiveTaskToComplete] w
    | Some current =>
        if diskWritable w then
          c = Returned () ∧
          ∃ retired,
            currentTask (loaded w') = None ∧
            history (loaded w') = retired :: history (loaded w) ∧
            history (loaded w') !! 0%nat = Some retired ∧
            progress retired = 100%Z ∧
            status retired = Completed ∧
            endTime retired = Some (clock w) ∧
            id retired = id current ∧ name retired = name current ∧
            updates retired = updates current
        else c = Thrown IOError ∧ w' = w
    end.
Proof.
  unfold completeTask. mstep.
  destruct (currentTask (loaded w)) as [current|]; [|ran].
  mstep. destruct (diskWritable w); [|ran].
  rewrite displayTask_ok by (simpl; lia). unfold logged. mstep.
  repeat mcase; mstep; eexists _, _; (split; [reflexivity|]);
    (split; [done|]); eexists; by split_and!.
Qed.

(** C5, counterexample: completing with no current task throws
    nothing. *)
Lemma complete_without_task_not_an_error :
  ¬ (∃ e, (completeTask "" freshWorld).1 = Thrown e).
Proof. intros [e He]. vm_compute in He. discriminate He. Qed.

(** *** Switching the current task to a session's task *)

Lemma setCurrentTaskFromSession_unbound w sid :
  map_get (activeTasks w) sid = None →
  setCurrentTaskFromSession sid w
  = (Thrown (Error ("No task found for session " +:+ sid)), w).
Proof. intros Hget. unfold setCurrentTaskFromSession. mstep. by rewrite Hget. Qed.

Lemma setCurrentTaskFromSession_bound w sid task :
  map_get (activeTasks w) sid = Some task →
  setCurrentTaskFromSession sid w
  = if diskWritable w
    then (Returned task,
          set_dataFile
            (Some {| currentTask := Some task; history := history (loaded w) |}) w)
    else (Thrown IOError, w).
Proof.
  intros Hget. unfold setCurrentTaskFromSession. mstep. rewrite Hget. mstep.
  by destruct (diskWritable w).
Qed.

(** C8: without a task bound to the session, [setCurrentTaskFromSession]
    throws ("No task found for session ..."); with one, and a writable
    store, it returns the bound task and the store has it as current,
    whatever the store held as current before: no conflict check is
    made. *)
Theorem switch_current_no_conflict_check w sid :
  (map_get (activeTasks w) sid = None →
   setCurrentTaskFromSession sid w
   = (Thrown (Error ("No task found for session " +:+ sid)), w)) ∧
  (∀ task,
     map_get (activeTasks w) sid = Some task →
     diskWritable w = true →
     ∃ w',
       setCurrentTaskFromSession sid w = (Returned task, w') ∧
       currentTask (loaded w') = Some task).
Proof.
  split; [apply setCurrentTaskFromSession_unbound|].
  intros task Hget Hdisk.
  rewrite (setCurrentTaskFromSession_bound _ _ _ Hget), Hdisk.
  by eexists.
Qed.

(** C9: when [setCurrentTaskFromSession] succeeds while another task is
    current, the store afterwards has the bound task as current and the
    history it had; the superseded task is in the store afterwards only
    if the history already held it: the switch does not retire it. *)
Theorem switch_current_drops_previous w sid task previous :
  map_get (activeTasks w) sid = Some task →
  currentTask (loaded w) = Some previous →
  previous ≠ task →
  diskWritable w = true →
  ∃ w',
    setCurrentTaskFromSession sid w = (Returned task, w') ∧
    loaded w' = {| currentTask := Some task; history := history (loaded w) |} ∧
    (previous ∈ storedTasks (loaded w') ↔ previous ∈ history (loaded w)).
Proof.
  intros Hget Hcur Hne Hdisk.
  rewrite (setCurrentTaskFromSession_bound _ _ _ Hget), Hdisk.
  eexists. split; [reflexivity|]. split; [reflexivity|].
  unfold storedTasks. cbn. rewrite elem_of_cons.
  split; [|by right]. intros [Heq|Hin]; [by destruct Hne|done].
Qed.

(** A session task bound to [session1] while the manual task "B" is
    current: the switch goes through and "B" is gone from the store. *)
Lemma switch_current_no_conflict_check_witness :
  setCurrentTaskFromSession "warp_9" freshWorld
    = (Thrown (Error "No task found for session warp_9"), freshWorld) ∧
  currentTask (loaded worldWithBAndSession) = Some taskB ∧
  ∃ w',
    setCurrentTaskFromSession "warp_1" worldWithBAndSession
      = (Returned (newSessionTask session1 (clock worldWithB)), w') ∧
    currentTask (loaded w') = Some (newSessionTask session1 (clock worldWithB)).
Proof.
  split; [|split; [reflexivity|]].
  - apply (proj1 (switch_current_no_conflict_check freshWorld "warp_9")).
    reflexivity.
  - apply (proj2 (switch_current_no_conflict_check worldWithBAndSession "warp_1"));
      reflexivity.
Defined.

Lemma switch_current_drops_previous_witness :
  ∃ w',
    setCurrentTaskFromSession "warp_1" worldWithBAndSession
      = (Returned (newSessionTask session1 (clock worldWithB)), w') ∧
    loaded w' = {| currentTask := Some (newSessionTask session1 (clock worldWithB));
                   history := [] |} ∧
    (taskB ∈ storedTasks (loaded w') ↔ taskB ∈ history (loaded worldWithBAndSession)).
Proof.
  apply (switch_current_drops_previous worldWithBAndSession "warp_1"
           (newSessionTask session1 (clock worldWithB)) taskB);
    [reflexivity|reflexivity| |reflexivity].
  intros Heq. apply (f_equal name) in Heq. vm_compute in Heq. discriminate Heq.
Defined.

(** *** Session bindings *)

Lemma createTaskForSession_bound w session task :
  map_get (activeTasks w) (s_sessionId session) = Some task →
  createTaskForSession session w = (Returned (Some task), w).
Proof. intros Hget. unfold createTaskForSession. mstep. by rewrite Hget. Qed.

Lemma createTaskForSession_unbound w session :
  map_get (activeTasks w) (s_sessionId session) = None →
  let task := newSessionTask session (clock w) in
  ∃ w',
    createTaskForSession session w = (Returned (Some task), w') ∧
    activeTasks w' = map_set (activeTasks w) (s_sessionId session) task ∧
    dataFile w' = dataFile w.
Proof.
  intros Hget task. unfold createTaskForSession. mstep. rewrite Hget. mstep.
  mcase; mstep; by eexists.
Qed.

(** Creation always returns a task, the one bound to the session
    afterwards, and does not write the store. *)
Lemma createTaskForSession_returns w session :
  ∃ task w',
    createTaskForSession session w = (Returned (Some task), w') ∧
    map_get (activeTasks w') (s_sessionId session) = Some task ∧
    dataFile w' = dataFile w.
Proof.
  destruct (map_get (activeTasks w) (s_sessionId session)) as [task|] eqn:Hget.
  - exists task, w. by rewrite (createTaskForSession_bound _ _ _ Hget).
  - destruct (createTaskForSession_unbound _ _ Hget) as (w' & Hrun & Htasks & Hfile).
    eexists _, w'. split; [exact Hrun|]. split; [|done].
    rewrite Htasks. apply map_get_set_eq.
Qed.

Lemma bound_to_same_tasks w w' sid i :
  activeTasks w' = activeTasks w → bound_to w sid i → bound_to w' sid i.
Proof. unfold bound_to. by intros ->. Qed.

Lemma startTask_activeTasks n d w : activeTasks (startTask n d w).2 = activeTasks w.
Proof. unfold startTask. mexec; reflexivity. Qed.

Lemma updateProgress_activeTasks p m w :
  activeTasks (updateProgress p m w).2 = activeTasks w.
Proof. unfold updateProgress. mexec; reflexivity. Qed.

Lemma completeTask_activeTasks m w : activeTasks (completeTask m w).2 = activeTasks w.
Proof. unfold completeTask. mexec; reflexivity. Qed.

Lemma stopTask_activeTasks w : activeTasks (stopTask w).2 = activeTasks w.
Proof. unfold stopTask. mexec; reflexivity. Qed.

Lemma showStatus_activeTasks w : activeTasks (showStatus w).2 = activeTasks w.
Proof. unfold showStatus. mexec; reflexivity. Qed.

Lemma setCurrentTaskFromSession_activeTasks sid w :
  activeTasks (setCurrentTaskFromSession sid w).2 = activeTasks w.
Proof. unfold setCurrentTaskFromSession. mexec; reflexivity. Qed.

Lemma createTaskForSession_keeps w session sid i :
  bound_to w sid i → bound_to (createTaskForSession session w).2 sid i.
Proof.
  intros (task & Hget & Hid).
  destruct (map_get (activeTasks w) (s_sessionId session)) as [task'|] eqn:Hget'.
  - rewrite (createTaskForSession_bound _ _ _ Hget'). by exists task.
  - destruct (createTaskForSession_unbound _ _ Hget') as (w' & -> & Htasks & _).
    exists task. split; [|done]. cbn [snd]. rewrite Htasks.
    rewrite map_get_set_ne; [done|]. intros Heq. congruence.
Qed.

Lemma handleClosedSession_keeps w sid' sid i :
  sid' ≠ sid → bound_to w sid i → bound_to (handleClosedSession sid' w).2 sid i.
Proof.
  intros Hne (task & Hget & Hid). exists task. split; [|done].
  unfold handleClosedSession. mexec;
    rewrite ?map_get_delete_ne, ?map_get_set_ne by done; done.
Qed.

Lemma updateSessionTaskProgress_keeps w sid' p m sid i :
  bound_to w sid i → bound_to (updateSessionTaskProgress sid' p m w).2 sid i.
Proof.
  intros (task & Hget & Hid).
  unfold bound_to, updateSessionTaskProgress. mstep.
  destruct (map_get (activeTasks w) sid') as [task'|] eqn:Hget'; [|by exists task].
  destruct (decide (sid' = sid)) as [->|Hne].
  - assert (task' = task) as -> by congruence.
    mexec; rewrite ?map_get_set_eq; eauto.
  - mexec; rewrite ?map_get_set_ne by done; eauto.
Qed.

Lemma run_keeps op w sid i :
  retires sid op = false → bound_to w sid i → bound_to (run op w) sid i.
Proof.
  intros Hop Hbound. destruct op; cbn [run].
  - eapply bound_to_same_tasks; [apply startTask_activeTasks|done].
  - eapply bound_to_same_tasks; [apply updateProgress_activeTasks|done].
  - eapply bound_to_same_tasks; [apply completeTask_activeTasks|done].
  - eapply bound_to_same_tasks; [apply stopTask_activeTasks|done].
  - eapply bound_to_same_tasks; [apply showStatus_activeTasks|done].
  - by apply createTaskForSession_keeps.
  - apply handleClosedSession_keeps; [|done].
    cbn in Hop. by apply bool_decide_eq_false in Hop.
  - by apply updateSessionTaskProgress_keeps.
  - eapply bound_to_same_tasks; [apply setCurrentTaskFromSession_activeTasks|done].
  - done.
  - done.
  - done.
Qed.

Lemma runs_keep ops w sid i :
  Forall (λ op, retires sid op = false) ops →
  bound_to w sid i → bound_to (runs ops w) sid i.
Proof.
  intros Hops. revert w. induction Hops as [|op ops Hop _ IH]; intros w Hbound.
  - done.
  - cbn. apply IH. by apply run_keeps.
Qed.

(** C7: create a task for a session, let the client and the environment
    do anything but retire that session, and create again: both calls
    return a task, with the same id, and the second call changes nothing
    at all (no second binding, same store, same history). *)
Theorem create_for_session_idempotent w session ops :
  Forall (λ op, retires (s_sessionId session) op = false) ops →
  ∃ task1 w1 task2 w3,
    createTaskForSession session w = (Returned (Some task1), w1) ∧
    createTaskForSession session (runs ops w1) = (Returned (Some task2), w3) ∧
    id task1 = id task2 ∧
    w3 = runs ops w1 ∧
    activeTasks w3 = activeTasks (runs ops w1) ∧
    history (loaded w3) = history (loaded (runs ops w1)).
Proof.
  intros Hops.
  destruct (createTaskForSession_returns w session) as (task1 & w1 & Hrun1 & Hget1 & _).
  assert (Hbound : bound_to w1 (s_sessionId session) (id task1)) by by exists task1.
  apply (runs_keep ops) in Hbound as (task2 & Hget2 & Hid); [|done].
  exists task1, w1, task2, (runs ops w1).
  rewrite (createTaskForSession_bound _ _ _ Hget2). by split_and!.
Qed.

Lemma create_for_session_idempotent_witness :
  ∃ task1 w1 task2 w3,
    createTaskForSession session1 freshWorld = (Returned (Some task1), w1) ∧
    createTaskForSession session1 (runs interleaving w1) = (Returned (Some task2), w3) ∧
    id task1 = id task2 ∧
    w3 = runs interleaving w1 ∧
    activeTasks w3 = activeTasks (runs interleaving w1) ∧
    history (loaded w3) = history (loaded (runs interleaving w1)).
Proof.
  apply (create_for_session_idempotent freshWorld session1 interleaving).
  unfold interleaving. repeat (constructor; [reflexivity|]). constructor.
Defined.

(** *** Persistence *)

(** C2 (as the code has it), for an initialised store: [tasks.json]
    exists and parses, so that the [initializeData] which the constructor
    starts without awaiting it finds the file and writes nothing to it
    (on a first run, with the file missing, that write of the empty store
    runs alongside the first calls and may land after theirs).  On such a
    store the operations that write it — [startTask], [updateProgress],
    [completeTask], [stopTask], [setCurrentTaskFromSession] — have written
    the new state when they return normally (and left the store alone
    when they refused the request); [handleClosedSession] has written the
    retirement when it has removed the binding;
    [updateSessionTaskProgress] writes the store only when the session's
    task is the store's current task; [createTaskForSession] returns its
    task without writing the store: the task is recorded in the in-memory
    map only. *)
Theorem store_written_before_normal_return w :
  is_Some (dataFile w) →
  (∀ n d,
     returned (startTask n d w).1 = true →
     loaded (startTask n d w).2 =
       match currentTask (loaded w) with
       | None => {| currentTask := Some (newManualTask n d (clock w));
                    history := history (loaded w) |}
       | Some _ => loaded w
       end) ∧
  (∀ p m,
     returned (updateProgress p m w).1 = true →
     loaded (updateProgress p m w).2 =
       match currentTask (loaded w) with
       | None => loaded w
       | Some current =>
           if bool_decide (p < 0)%Z || bool_decide (p > 100)%Z then loaded w
           else {| currentTask := Some (recordProgress current p m (clock w));
                   history := history (loaded w) |}
       end) ∧
  (∀ m,
     returned (completeTask m w).1 = true →
     loaded (completeTask m w).2 =
       match currentTask (loaded w) with
       | None => loaded w
       | Some current =>
           {| currentTask := None;
              history := markCompleted current m (clock w) :: history (loaded w) |}
       end) ∧
  (returned (stopTask w).1 = true →
   loaded (stopTask w).2 =
     match currentTask (loaded w) with
     | None => loaded w
     | Some current =>
         {| currentTask := None;
            history := markStopped current (clock w) :: history (loaded w) |}
     end) ∧
  (∀ sid,
     returned (setCurrentTaskFromSession sid w).1 = true →
     ∃ task,
       map_get (activeTasks w) sid = Some task ∧
       loaded (setCurrentTaskFromSession sid w).2 =
         {| currentTask := Some task; history := history (loaded w) |}) ∧
  (∀ sid task,
     map_get (activeTasks w) sid = Some task →
     map_get (activeTasks (handleClosedSession sid w).2) sid = None →
     loaded (handleClosedSession sid w).2 =
       {| currentTask :=
            if isCurrentOfSession (loaded w) sid then None else currentTask (loaded w);
          history := markStopped task (clock w) :: history (loaded w) |}) ∧
  (∀ sid p m,
     returned (updateSessionTaskProgress sid p m w).1 = true →
     ∃ task,
       map_get (activeTasks w) sid = Some task ∧
       loaded (updateSessionTaskProgress sid p m w).2 =
         if isCurrentOfSession (loaded w) sid
         then {| currentTask := Some (recordProgress task p m (clock w));
                 history := history (loaded w) |}
         else loaded w) ∧
  (∀ session,
     ∃ task w',
       createTaskForSession session w = (Returned (Some task), w') ∧
       map_get (activeTasks w') (s_sessionId session) = Some task ∧
       dataFile w' = dataFile w).
Proof.
  intros _. split_and!.
  - intros n d. unfold startTask. mexec; intros Hret;
      first [discriminate Hret | reflexivity].
  - intros p m. unfold updateProgress. mexec; intros Hret;
      first [discriminate Hret | reflexivity].
  - intros m. unfold completeTask. mexec; intros Hret;
      first [discriminate Hret | reflexivity].
  - unfold stopTask. mexec; intros Hret;
      first [discriminate Hret | reflexivity].
  - intros sid. unfold setCurrentTaskFromSession. mexec; intros Hret;
      first [discriminate Hret | by eexists].
  - intros sid task Hget. unfold handleClosedSession. mstep. rewrite Hget.
    mexec; rewrite ?map_get_set_eq; intros Hgone;
      unfold loaded in *; cbn [dataFile set_activeTasks] in *;
      first [discriminate Hgone | congruence | reflexivity].
  - intros sid p m. unfold updateSessionTaskProgress. mexec; intros Hret;
      unfold loaded in *; cbn [dataFile set_activeTasks] in *;
      first [discriminate Hret | congruence | by eexists].
  - intros session. apply createTaskForSession_returns.
Qed.

Lemma store_written_before_normal_return_witness :
  loaded (startTask "A" "" freshWorld).2 =
    {| currentTask := Some (newManualTask "A" "" (clock freshWorld)); history := [] |} ∧
  loaded (updateProgress 40 "draft done" worldWithB).2 =
    {| currentTask := Some (recordProgress taskB 40 "draft done" (clock worldWithB));
       history := [] |} ∧
  loaded (completeTask "shipped" worldWithB).2 =
    {| currentTask := None;
       history := [markCompleted taskB "shipped" (clock worldWithB)] |} ∧
  loaded (stopTask worldWithB).2 =
    {| currentTask := None; history := [markStopped taskB (clock worldWithB)] |} ∧
  (∃ task,
     map_get (activeTasks worldWithBAndSession) "warp_1" = Some task ∧
     loaded (setCurrentTaskFromSession "warp_1" worldWithBAndSession).2 =
       {| currentTask := Some task; history := [] |}) ∧
  loaded (handleClosedSession "warp_1" worldWithBAndSession).2 =
    {| currentTask := Some taskB;
       history := [markStopped (newSessionTask session1 (clock worldWithB))
                     (clock worldWithBAndSession)] |} ∧
  (∃ task,
     map_get (activeTasks worldWithBAndSession) "warp_1" = Some task ∧
     loaded (updateSessionTaskProgress "warp_1" 40 "halfway" worldWithBAndSession).2 =
       loaded worldWithBAndSession) ∧
  (∃ task w',
     createTaskForSession session1 freshWorld = (Returned (Some task), w') ∧
     map_get (activeTasks w') "warp_1" = Some task ∧
     dataFile w' = dataFile freshWorld).
Proof.
  destruct (store_written_before_normal_return freshWorld (ex_intro _ _ eq_refl))
    as (Hstart & _ & _ & _ & _ & _ & _ & Hcreate).
  destruct (store_written_before_normal_return worldWithB (ex_intro _ _ eq_refl))
    as (_ & Hupdate & Hcomplete & Hstop & _).
  destruct (store_written_before_normal_return worldWithBAndSession
              (ex_intro _ _ eq_refl))
    as (_ & _ & _ & _ & Hswitch & Hclosed & Hsession & _).
  split_and!.
  - apply (Hstart "A" ""). reflexivity.
  - apply (Hupdate 40%Z "draft done"). reflexivity.
  - apply (Hcomplete "shipped"). reflexivity.
  - apply Hstop. reflexivity.
  - apply (Hswitch "warp_1"). reflexivity.
  - apply (Hclosed "warp_1" (newSessionTask session1 (clock worldWithB)));
      reflexivity.
  - apply (Hsession "warp_1" 40%Z "halfway"). reflexivity.
  - apply (Hcreate session1).
Defined.

(** C2, counterexample: the task that [createTaskForSession] returns
    for a new window is not in the store that is loaded afterwards. *)
Lemma create_for_session_not_persisted :
  ¬ (∀ task w',
       createTaskForSession session1 freshWorld = (Returned (Some task), w') →
       task ∈ storedTasks (loaded w')).
Proof.
  intros Hclaim. specialize (Hclaim _ _ eq_refl).
  vm_compute in Hclaim. by apply elem_of_nil in Hclaim.
Qed.

(** *** Scenarios *)

(** start, two updates, completion. *)
Example manual_scenario :
  let w := runs [OpStartTask "Write spec" ""; OpUpdateProgress 40 "draft done";
                 OpUpdateProgress 90 "review"; OpCompleteTask "shipped"] freshWorld in
  currentTask (loaded w) = None ∧
  ∃ task,
    history (loaded w) = [task] ∧
    name task = "Write spec" ∧ progress task = 100%Z ∧ status task = Completed ∧
    completionMessage task = Some "shipped" ∧
    ((λ u, (u_progress u, u_message u)) <$> updates task)
      = [(40%Z, "draft done"); (90%Z, "review")].
Proof. cbv zeta. split; [by vm_compute|]. eexists. by vm_compute. Qed.

(** The bounds of the percentage, and a decrease. *)
Example update_bounds :
  let stored p := progress <$> currentTask (loaded (updateProgress p "" worldWithB).2) in
  stored (-1)%Z = Some 0%Z ∧ stored 0%Z = Some 0%Z ∧
  stored 100%Z = Some 100%Z ∧ stored 101%Z = Some 0%Z ∧
  progress <$> currentTask (loaded
    (runs [OpUpdateProgress 90 ""; OpUpdateProgress 10 ""] worldWithB)) = Some 10%Z.
Proof. by vm_compute. Qed.

(** A scan that sees two windows, then a scan whose probe fails: both
    session tasks are stopped and moved to the history. *)
Example failed_probe_retires_session_tasks :
  let w1 := (scanAndCreateTasks (WarpSessionManager.ProbeOk [session1; session2])
               freshWorld).2 in
  let w2 := (scanAndCreateTasks (WarpSessionManager.ProbeFailed IOError) w1).2 in
  map_keys (activeTasks w1) = ["warp_1"; "warp_2"] ∧
  history (loaded w1) = [] ∧
  activeTasks w2 = [] ∧
  (status <$> history (loaded w2)) = [Stopped; Stopped] ∧
  (sessionId <$> history (loaded w2)) = [Some "warp_2"; Some "warp_1"].
Proof. by vm_compute. Qed.

(** A task whose stored progress cannot be drawn makes the refused
    start throw a RangeError out of [displayTask]. *)
Example start_conflict_undrawable :
  let broken := recordProgress taskB 150 "" 0 in
  let w := set_dataFile (Some {| currentTask := Some broken; history := [] |}) freshWorld in
  (startTask "A" "" w).1 = Thrown RangeErrorInvalidCount ∧
  dataFile (startTask "A" "" w).2 = dataFile w.
Proof. by vm_compute. Qed.

End Lifecycle.

(** ** More on the session registry *)

Section RegistryMore.

Import WarpSessionManager.

Implicit Types (w : World) (probe : Probe).

Lemma filter_none {A} (P : A → Prop) `{∀ x, Decision (P x)} (l : list A) :
  (∀ x, x ∈ l → ¬ P x) → filter P l = [].
Proof.
  induction l as [|a l IH]; intros Hnone; [done|].
  rewrite filter_cons_False by (apply Hnone; left).
  apply IH. intros x Hx. apply Hnone. by right.
Qed.

(** What [getWarpSessions] hands to the diff. *)
Lemma detectSessionChanges_polled probe w :
  ∃ current w0,
    (getWarpSessions probe w).1 = Returned current ∧
    lastKnownSessions w0 = lastKnownSessions w ∧
    activeSessions w0 = activeSessions w ∧
    activeTasks w0 = activeTasks w ∧
    diskWritable w0 = diskWritable w ∧
    detectSessionChanges probe w = (Returned (polled current w0).1, (polled current w0).2).
Proof.
  destruct probe as [current|error].
  - exists current, w. by rewrite detectSessionChanges_ok.
  - exists [], (set_console (console w ++ [ErrGettingWarpSessions error]) w).
    by rewrite detectSessionChanges_failed.
Qed.

Lemma polled_again_quiet current w :
  let w1 := (polled current w).2 in
  newSessions (polled current w1).1 = [] ∧
  closedSessions (polled current w1).1 = [] ∧
  lastKnownSessions (polled current w1).2 = lastKnownSessions w1.
Proof.
  cbn. split_and!; [| |done].
  - apply filter_none. intros s Hs Hnew. apply Hnew.
    rewrite set_has_elem_of, elem_of_set_from, list_elem_of_fmap. eauto.
  - apply filter_none. intros x Hx Hgone. apply Hgone.
    by rewrite set_has_elem_of.
Qed.

(** X1: polling twice with the same probe outcome, whatever the registry
    held before, gives an empty diff the second time and leaves the
    snapshot as the first poll left it. *)
Theorem repeated_poll_is_quiet w probe :
  let w1 := (detectSessionChanges probe w).2 in
  ∃ changes w2,
    detectSessionChanges probe w1 = (Returned changes, w2) ∧
    newSessions changes = [] ∧
    closedSessions changes = [] ∧
    lastKnownSessions w2 = lastKnownSessions w1.
Proof.
  destruct probe as [current|error]; cbn zeta.
  - rewrite (detectSessionChanges_ok w), (detectSessionChanges_ok (polled current w).2).
    eexists _, _. split; [reflexivity|]. apply polled_again_quiet.
  - rewrite (detectSessionChanges_failed w).
    match goal with |- context [detectSessionChanges _ ?w1] =>
      rewrite (detectSessionChanges_failed w1) end.
    eexists _, _. split; [reflexivity|].
    split_and!; [done| |done].
    apply filter_none. intros x Hx Hgone. apply Hgone.
    by rewrite set_has_elem_of.
Qed.

(** X2: the poll that follows a failed probe reports every session of the
    probe as new, the ones known before the failure included, and none as
    closed. *)
Theorem poll_after_failure_reports_all_new w error current :
  let w1 := (detectSessionChanges (ProbeFailed error) w).2 in
  ∃ changes w2,
    detectSessionChanges (ProbeOk current) w1 = (Returned changes, w2) ∧
    newSessions changes = current ∧
    closedSessions changes = [].
Proof.
  cbn zeta. rewrite (detectSessionChanges_failed w), detectSessionChanges_ok.
  eexists _, _. split; [reflexivity|]. split.
  - apply filter_all. intros s _. rewrite set_has_elem_of. apply not_elem_of_nil.
  - done.
Qed.

Lemma map_get_foldl_delete_notin {V} (m : list (string * V)) (ks : list string) k :
  k ∉ ks → map_get (foldl map_delete m ks) k = map_get m k.
Proof.
  revert m. induction ks as [|k' ks IH]; intros m Hk; [done|].
  apply not_elem_of_cons in Hk as [Hne Hk]. cbn.
  rewrite IH by done. by apply map_get_delete_ne.
Qed.

Lemma map_get_foldl_delete_in {V} (m : list (string * V)) (ks : list string) k :
  k ∈ ks → map_get (foldl map_delete m ks) k = None.
Proof.
  intros Hk. destruct (map_get (foldl map_delete m ks) k) eqn:Hget; [|done].
  assert (Hin : k ∈ map_keys (foldl map_delete m ks)).
  { apply map_get_keys. by rewrite Hget. }
  apply elem_of_keys_foldl_delete in Hin as [_ Hnot]. by destruct Hnot.
Qed.

Lemma map_get_foldl_set (sessions : list Session) (m : list (string * Session)) s :
  NoDup (s_sessionId <$> sessions) → s ∈ sessions →
  map_get (foldl (λ m session, map_set m (s_sessionId session) session) m sessions)
    (s_sessionId s) = Some s.
Proof.
  revert m. induction sessions as [|s' sessions IH]; intros m Hnodup Hs.
  - by apply elem_of_nil in Hs.
  - rewrite fmap_cons, NoDup_cons in Hnodup. destruct Hnodup as [Hfresh Hnodup].
    apply elem_of_cons in Hs as [->|Hs]; cbn.
    + clear IH Hnodup. revert m Hfresh.
      induction sessions as [|s'' sessions IH]; intros m Hfresh; cbn.
      * apply map_get_set_eq.
      * rewrite fmap_cons, not_elem_of_cons in Hfresh. destruct Hfresh as [Hne Hfresh].
        assert (Hstep : ∀ m', map_get m' (s_sessionId s') = Some s' →
                  map_get (foldl (λ m session, map_set m (s_sessionId session) session)
                             m' sessions) (s_sessionId s') = Some s').
        { clear IH m. induction sessions as [|s3 sessions IH3]; intros m' Hm'; [done|].
          rewrite fmap_cons, not_elem_of_cons in Hfresh. destruct Hfresh as [Hne3 Hfresh].
          cbn. apply IH3; [done|]. rewrite map_get_set_ne by done. done. }
        apply Hstep. rewrite map_get_set_ne by done. apply map_get_set_eq.
    + by apply IH.
Qed.

(** X3: after a poll whose probe lists each window once, [getSession]
    finds every probed session under its id, as probed, and finds nothing
    under an id that the poll reported closed. *)
Theorem sessions_found_after_poll w current :
  NoDup (s_sessionId <$> current) →
  ∃ changes w',
    detectSessionChanges (ProbeOk current) w = (Returned changes, w') ∧
    (∀ s, s ∈ current → getSession (s_sessionId s) w' = (Returned (Some s), w')) ∧
    (∀ sid, sid ∈ closedSessions changes → getSession sid w' = (Returned None, w')).
Proof.
  intros Hnodup. rewrite detectSessionChanges_ok. eexists _, _.
  split; [reflexivity|]. unfold getSession, gets. cbn. split.
  - intros s Hs. f_equal. f_equal.
    rewrite map_get_foldl_delete_notin; [by apply map_get_foldl_set|].
    rewrite list_elem_of_filter, set_has_elem_of, elem_of_set_from, list_elem_of_fmap.
    intros [Hgone _]. apply Hgone. eauto.
  - intros sid Hsid. f_equal. f_equal. by apply map_get_foldl_delete_in.
Qed.

Lemma sessions_found_after_poll_witness :
  ∃ changes w',
    detectSessionChanges (ProbeOk [session2]) polledWorld = (Returned changes, w') ∧
    (∀ s, s ∈ [session2] → getSession (s_sessionId s) w' = (Returned (Some s), w')) ∧
    (∀ sid, sid ∈ closedSessions changes → getSession sid w' = (Returned None, w')).
Proof.
  apply (sessions_found_after_poll polledWorld [session2]).
  apply NoDup_singleton.
Defined.

End RegistryMore.

(** ** More on the task lifecycle *)

Section LifecycleMore.

Import TaskTracker.

Implicit Types (w : World) (task current : Task) (sid : string).

Ltac mstep :=
  unfold loadData, saveData, loadConfig, Date_now, console_log, notify, when;
  unfold mbind, M_bind, mret, M_ret, gets, modify, throw, try_catch;
  cbn [dataFile configFile diskWritable clock console notified activeTasks
    activeSessions lastKnownSessions set_dataFile set_console set_notified
    set_activeTasks set_activeSessions set_lastKnownSessions set_clock
    set_diskWritable fst snd orb andb].

Ltac mcase :=
  match goal with
  | |- context [displayTask ?t ?d ?w] =>
      let c := fresh "c" in
      let lines := fresh "lines" in
      let H := fresh in
      destruct (displayTask_frame t d w) as (c & lines & H);
      rewrite H; clear H; destruct c
  | |- context [if ?b then _ else _] =>
      lazymatch type of b with bool => destruct b eqn:? end
  | |- context [match ?x with Some _ => _ | None => _ end] => destruct x eqn:?
  end.

Ltac mexec := repeat (mstep; try mcase).

(** *** The progress bar *)

(** X4: the bar of the task box (30 cells) can be drawn exactly for the
    percentages from -1 to 101; for any other percentage
    [createProgressBar] throws the RangeError of [String.prototype.repeat],
    and it leaves the world alone either way. *)
Theorem progress_bar_drawn_iff (percentage : Z) w :
  ∃ c,
    createProgressBar percentage 30 w = (c, w) ∧
    (returned c = true ↔ (-1 ≤ percentage ≤ 101)%Z) ∧
    (returned c = true ∨ c = Thrown RangeErrorInvalidCount).
Proof.
  unfold createProgressBar. mstep.
  destruct (decide (percentage < -1)%Z) as [Hlow|Hlow].
  - assert ((2 * percentage * 30 + 100) `div` 200 < 0)%Z
      by (apply Z.div_lt_upper_bound; lia).
    rewrite bool_decide_eq_true_2 by done.
    eexists. split; [reflexivity|]. split; [|by right]. cbn. split; [done|lia].
  - assert (0 ≤ (2 * percentage * 30 + 100) `div` 200)%Z
      by (apply Z.div_pos; lia).
    rewrite bool_decide_eq_false_2 by lia.
    destruct (decide (percentage ≤ 101)%Z) as [Hhigh|Hhigh].
    + assert ((2 * percentage * 30 + 100) `div` 200 < 31)%Z
        by (apply Z.div_lt_upper_bound; lia).
      rewrite bool_decide_eq_false_2 by lia.
      eexists. split; [reflexivity|]. split; [|by left]. cbn. split; [lia|done].
    + assert (31 ≤ (2 * percentage * 30 + 100) `div` 200)%Z
        by (apply Z.div_le_lower_bound; lia).
      rewrite bool_decide_eq_true_2 by lia.
      eexists. split; [reflexivity|]. split; [|by right]. cbn. split; [done|lia].
Qed.

(** X5: for a percentage within [0,100] the bar of the task box (30
    cells, the length [displayTask] draws it with) is drawn with
    non-negative numbers of filled and empty cells that add up to 30, and
    the filled share is the one nearest to the percentage: it differs from
    it by at most half a cell. *)
Theorem progress_bar_cells (percentage : Z) w :
  (0 ≤ percentage ≤ 100)%Z →
  ∃ filled empty,
    createProgressBar percentage 30 w = (Returned (filled, empty), w) ∧
    (0 ≤ filled)%Z ∧ (0 ≤ empty)%Z ∧ (filled + empty = 30)%Z ∧
    (60 * percentage - 100 < 200 * filled ≤ 60 * percentage + 100)%Z.
Proof.
  intros Hp. unfold createProgressBar. mstep.
  set (filled := ((2 * percentage * 30 + 100) `div` 200)%Z).
  pose proof (Z.div_mod (2 * percentage * 30 + 100) 200 ltac:(lia)) as Hdm.
  pose proof (Z.mod_pos_bound (2 * percentage * 30 + 100) 200 ltac:(lia)) as Hmod.
  fold filled in Hdm.
  rewrite !bool_decide_eq_false_2 by lia.
  eexists _, _. split; [reflexivity|]. split_and!; lia.
Qed.

Lemma progress_bar_cells_witness :
  ∃ filled empty,
    createProgressBar 40 30 freshWorld = (Returned (filled, empty), freshWorld) ∧
    (0 ≤ filled)%Z ∧ (0 ≤ empty)%Z ∧ (filled + empty = 30)%Z ∧
    (60 * 40 - 100 < 200 * filled ≤ 60 * 40 + 100)%Z.
Proof. apply (progress_bar_cells 40 freshWorld). lia. Defined.

(** *** Stopping *)

(** X6: with a current task and a writable store, [stopTask] returns
    normally and the store then has no current task and, at the head of
    the history, that task with status stopped, [endTime] set and its
    progress and updates as they were; without a current task it prints an
    error line and changes nothing else; when the write fails the
    exception escapes and nothing has changed. *)
Theorem stop_task_cases w :
  ∃ c w',
    stopTask w = (c, w') ∧
    match currentTask (loaded w) with
    | None => c = Returned () ∧ w' = logged [ErrNoActiveTaskToStop] w
    | Some current =>
        if diskWritable w then
          c = Returned () ∧
          ∃ retired,
            loaded w' = {| currentTask := None;
                           history := retired :: history (loaded w) |} ∧
            status retired = Stopped ∧
            endTime retired = Some (clock w) ∧
            progress retired = progress current ∧
            updates retired = updates current ∧
            id retired = id current ∧ name retired = name current
        else c = Thrown IOError ∧ w' = w
    end.
Proof.
  unfold stopTask. mstep.
  destruct (currentTask (loaded w)) as [current|];
    [|eexists _, _; split; [reflexivity|]; split; reflexivity].
  mstep. destruct (diskWritable w);
    [|eexists _, _; split; [reflexivity|]; split; reflexivity].
  mstep. eexists _, _. split; [reflexivity|]. split; [done|].
  eexists. by split_and!.
Qed.

(** *** Retiring a session's task *)

(** X7: closing a session that has a bound task, the store being
    writable, never throws; it removes that binding and no other, puts the
    task at the head of the history with status stopped, [endTime] set
    and its progress kept, and clears the store's current task exactly
    when that task carries the closed session's id. *)
Theorem handle_closed_session_retires w sid task :
  map_get (activeTasks w) sid = Some task →
  diskWritable w = true →
  ∃ w',
    handleClosedSession sid w = (Returned (), w') ∧
    map_get (activeTasks w') sid = None ∧
    (∀ sid', sid' ≠ sid → map_get (activeTasks w') sid' = map_get (activeTasks w) sid') ∧
    history (loaded w') = markStopped task (clock w) :: history (loaded w) ∧
    status (markStopped task (clock w)) = Stopped ∧
    endTime (markStopped task (clock w)) = Some (clock w) ∧
    progress (markStopped task (clock w)) = progress task ∧
    currentTask (loaded w') =
      match currentTask (loaded w) with
      | Some current =>
          if decide (sessionId current = Some sid) then None else Some current
      | None => None
      end.
Proof.
  intros Hget Hdisk. unfold handleClosedSession. mstep. rewrite Hget. mstep.
  rewrite Hdisk. mstep.
  assert (Hrest : ∀ sid', sid' ≠ sid →
            map_get (map_delete (map_set (activeTasks w) sid
                                   (markStopped task (clock w))) sid) sid'
            = map_get (activeTasks w) sid').
  { intros sid' Hne. rewrite map_get_delete_ne, map_get_set_ne by done. done. }
  assert (Hcur : (if isCurrentOfSession
                       (loaded (set_activeTasks
                          (map_set (activeTasks w) sid (markStopped task (clock w))) w)) sid
                  then None
                  else currentTask (loaded (set_activeTasks
                          (map_set (activeTasks w) sid (markStopped task (clock w))) w)))
                 = match currentTask (loaded w) with
                   | Some current =>
                       if decide (sessionId current = Some sid) then None else Some current
                   | None => None
                   end).
  { unfold isCurrentOfSession, loaded. cbn [dataFile set_activeTasks].
    destruct (currentTask (default emptyData (dataFile w))) as [current|]; [|done].
    unfold bool_decide. by destruct (decide_rel _ _ _), (decide _). }
  mcase; mstep; eexists; (split; [reflexivity|]); cbn;
    rewrite map_get_delete_eq; split_and!; try done; by rewrite <- Hcur.
Qed.

Lemma handle_closed_session_retires_witness :
  ∃ w',
    handleClosedSession "warp_1" worldWithBAndSession = (Returned (), w') ∧
    map_get (activeTasks w') "warp_1" = None ∧
    history (loaded w') =
      [markStopped (newSessionTask session1 (clock worldWithB)) (clock worldWithBAndSession)] ∧
    currentTask (loaded w') = Some taskB.
Proof.
  destruct (handle_closed_session_retires worldWithBAndSession "warp_1"
              (newSessionTask session1 (clock worldWithB)) eq_refl eq_refl)
    as (w' & Hrun & Hgone & _ & Hhist & _ & _ & _ & Hcur).
  exists w'. split_and!; [exact Hrun|exact Hgone|exact Hhist|exact Hcur].
Defined.

(** X8: when the store cannot be written, closing a session with a bound
    task still returns normally: the failure is caught and printed, the
    store is untouched and the session stays bound, but to a task that is
    already marked stopped, with [endTime] set. *)
Theorem handle_closed_session_write_failure w sid task :
  map_get (activeTasks w) sid = Some task →
  diskWritable w = false →
  ∃ w',
    handleClosedSession sid w = (Returned (), w') ∧
    dataFile w' = dataFile w ∧
    map_get (activeTasks w') sid = Some (markStopped task (clock w)) ∧
    status (markStopped task (clock w)) = Stopped ∧
    console w' = console w ++ [ErrHandlingClosedSession IOError] ∧
    notified w' = notified w.
Proof.
  intros Hget Hdisk. unfold handleClosedSession. mstep. rewrite Hget. mstep.
  rewrite Hdisk. mstep. eexists. split; [reflexivity|]. cbn.
  by rewrite map_get_set_eq.
Qed.

Lemma handle_closed_session_write_failure_witness :
  ∃ w',
    handleClosedSession "warp_1" (set_diskWritable false worldWithBAndSession)
      = (Returned (), w') ∧
    dataFile w' = dataFile worldWithBAndSession ∧
    (status <$> map_get (activeTasks w') "warp_1") = Some Stopped.
Proof.
  destruct (handle_closed_session_write_failure
              (set_diskWritable false worldWithBAndSession) "warp_1"
              (newSessionTask session1 (clock worldWithB)) eq_refl eq_refl)
    as (w' & Hrun & Hfile & Hget & _).
  exists w'. split_and!; [exact Hrun|exact Hfile|by rewrite Hget].
Defined.

(** *** Progress of a session's task *)

(** X9: [updateSessionTaskProgress] throws, changing nothing, when no
    task is bound to the session and when the percentage is outside
    [0,100].  Otherwise it records the progress and one more update entry
    on the bound task in the map; it writes that task to the store only
    when the store's current task carries the session's id; and when that
    write fails the exception escapes after the map has already been
    updated. *)
Theorem update_session_progress_cases w sid (percentage : Z) (message : string) :
  ∃ c w',
    updateSessionTaskProgress sid percentage message w = (c, w') ∧
    match map_get (activeTasks w) sid with
    | None => c = Thrown (Error ("No task found for session " +:+ sid)) ∧ w' = w
    | Some task =>
        if inRange percentage then
          let task' := recordProgress task percentage message (clock w) in
          activeTasks w' = map_set (activeTasks w) sid task' ∧
          if isCurrentOfSession (loaded w) sid then
            if diskWritable w then
              c = Returned task' ∧
              loaded w' = {| currentTask := Some task'; history := history (loaded w) |}
            else c = Thrown IOError ∧ dataFile w' = dataFile w
          else c = Returned task' ∧ dataFile w' = dataFile w
        else
          c = Thrown (Error "Progress percentage must be between 0 and 100") ∧ w' = w
    end.
Proof.
  unfold updateSessionTaskProgress, inRange. mstep.
  destruct (map_get (activeTasks w) sid) as [task|];
    [|eexists _, _; split; [reflexivity|]; split; reflexivity].
  destruct (bool_decide (percentage < 0)%Z || bool_decide (percentage > 100)%Z);
    cbn [negb]; [eexists _, _; split; [reflexivity|]; split; reflexivity|].
  mstep.
  change (loaded (set_activeTasks
            (map_set (activeTasks w) sid
               (recordProgress task percentage message (clock w))) w))
    with (loaded w).
  destruct (isCurrentOfSession (loaded w) sid); mstep.
  - destruct (diskWritable w); mstep.
    + mcase; mstep; eexists _, _; (split; [reflexivity|]); by split_and!.
    + eexists _, _. split; [reflexivity|]. by split_and!.
  - mcase; mstep; eexists _, _; (split; [reflexivity|]); by split_and!.
Qed.

(** *** Notifications *)

(** X10: an accepted [updateProgress] (current task present, percentage
    within [0,100], store writable) sends exactly one desktop notification
    when notifications are enabled and the progress rose by 25 points or
    more, and none otherwise: in particular never for a decrease. *)
Theorem update_progress_notifies w current (percentage : Z) (message : string) :
  currentTask (loaded w) = Some current →
  inRange percentage = true →
  diskWritable w = true →
  notified (updateProgress percentage message w).2 =
    notified w ++
      if notifications (default defaultConfig (configFile w))
         && bool_decide (percentage - progress current >= 25)%Z
      then [name current +:+ ": " +:+ pretty percentage +:+ "% complete"]
      else [].
Proof.
  intros Hcur Hrange Hdisk. unfold inRange in Hrange.
  apply negb_true_iff in Hrange.
  assert (0 ≤ percentage ≤ 100)%Z as Hp.
  { apply orb_false_iff in Hrange as [H1 H2].
    apply bool_decide_eq_false in H1, H2. lia. }
  unfold updateProgress. mstep. rewrite Hcur, Hrange. mstep. rewrite Hdisk. mstep.
  rewrite displayTask_ok by (cbn; lia). unfold logged. mstep.
  repeat mcase; mstep; cbn in *; rewrite ?app_nil_r; first [done | congruence].
Qed.

Lemma update_progress_notifies_witness :
  notified (updateProgress 30 "" worldWithB).2 = ["B: 30% complete"] ∧
  notified (updateProgress 20 "" worldWithB).2 = [] ∧
  notified (updateProgress 5 "" (updateProgress 90 "" worldWithB).2).2
    = ["B: 90% complete"].
Proof.
  split_and!.
  - apply (update_progress_notifies worldWithB taskB 30 ""); reflexivity.
  - apply (update_progress_notifies worldWithB taskB 20 ""); reflexivity.
  - apply (update_progress_notifies (updateProgress 90 "" worldWithB).2
             (recordProgress taskB 90 "" (clock worldWithB)) 5 ""); reflexivity.
Defined.

End LifecycleMore.

(** ** What every run of the tracker keeps *)

Section Invariants.

Import TaskTracker.

Implicit Types (w : World) (task current : Task) (sid : string) (op : Op).

Ltac mstep :=
  unfold loadData, saveData, loadConfig, Date_now, console_log, notify, when;
  unfold mbind, M_bind, mret, M_ret, gets, modify, throw, try_catch;
  cbn [dataFile configFile diskWritable clock console notified activeTasks
    activeSessions lastKnownSessions set_dataFile set_console set_notified
    set_activeTasks set_activeSessions set_lastKnownSessions set_clock
    set_diskWritable fst snd orb andb].

Ltac mcase :=
  match goal with
  | |- context [displayTask ?t ?d ?w] =>
      let c := fresh "c" in
      let lines := fresh "lines" in
      let H := fresh in
      destruct (displayTask_frame t d w) as (c & lines & H);
      rewrite H; clear H; destruct c
  | |- context [if ?b then _ else _] =>
      lazymatch type of b with bool => destruct b eqn:? end
  | |- context [match ?x with Some _ => _ | None => _ end] => destruct x eqn:?
  end.

Ltac mexec := repeat (mstep; try mcase).

Ltac unfold_op :=
  unfold startTask, updateProgress, completeTask, stopTask, showStatus,
    createTaskForSession, handleClosedSession, updateSessionTaskProgress,
    setCurrentTaskFromSession.

Lemma markStopped_terminated task (now : Z) : terminated (markStopped task now).
Proof. split; [done|by eexists]. Qed.

Lemma markCompleted_terminated task (message : string) (now : Z) :
  terminated (markCompleted task message now).
Proof. split; [done|by eexists]. Qed.

(** One call adds at most one task to the history, a terminated one, in
    front, and keeps the rest. *)
Lemma run_history op w :
  edits_store op = false →
  ∃ newer,
    history (loaded (run op w)) = newer ++ history (loaded w) ∧
    length newer ≤ 1 ∧
    Forall terminated newer.
Proof.
  intros Hop. destruct op; try discriminate Hop; cbn [run]; unfold_op.
  all: mexec; unfold loaded; cbn.
  all: first
    [ exists []; split; [reflexivity|]; split; [cbn; lia|constructor]
    | eexists [_]; split; [reflexivity|]; split; [cbn; lia|];
      apply Forall_singleton;
      first [apply markStopped_terminated | apply markCompleted_terminated] ].
Qed.

(** X11: whatever the client calls and however the clock and the disk
    behave, as long as nobody else rewrites [tasks.json], the history only
    grows at its head: the history before the run is a suffix of the
    history after it, at most one task is added per call, and every added
    task is terminated (status completed or stopped, [endTime] set). *)
Theorem history_is_append_only ops w :
  Forall (λ op, edits_store op = false) ops →
  ∃ newer,
    history (loaded (runs ops w)) = newer ++ history (loaded w) ∧
    length newer ≤ length ops ∧
    Forall terminated newer.
Proof.
  intros Hops. revert w. induction Hops as [|op ops Hop _ IH]; intros w.
  - exists []. split; [reflexivity|]. split; [cbn; lia|constructor].
  - cbn [runs foldl]. destruct (IH (run op w)) as (newer & Hhist & Hlen & Hterm).
    destruct (run_history op w Hop) as (newer1 & Hhist1 & Hlen1 & Hterm1).
    exists (newer ++ newer1). fold (runs ops (run op w)).
    rewrite Hhist, Hhist1, app_assoc. split; [done|].
    split; [rewrite length_app; cbn; lia|]. by apply Forall_app.
Qed.

Lemma history_is_append_only_witness :
  ∃ newer,
    history (loaded (runs interleaving worldWithB)) = newer ++ history (loaded worldWithB) ∧
    length newer ≤ length interleaving ∧
    Forall terminated newer.
Proof.
  apply (history_is_append_only interleaving worldWithB).
  unfold interleaving. repeat (constructor; [reflexivity|]). constructor.
Defined.

(** *** Drawable progress *)

Lemma map_get_values {V} (m : list (string * V)) k v :
  map_get m k = Some v → v ∈ map_values m.
Proof.
  unfold map_values. induction m as [|[k' v'] m IH]; cbn; [done|].
  destruct (decide (k' = k)); intros Hget.
  - injection Hget as ->. left.
  - right. by apply IH.
Qed.

Lemma Forall_values_set {V} (P : V → Prop) (m : list (string * V)) k v :
  P v → Forall P (map_values m) → Forall P (map_values (map_set m k v)).
Proof.
  unfold map_values. intros Hv. induction m as [|[k' v'] m IH]; cbn.
  - intros _. by apply Forall_singleton.
  - rewrite Forall_cons. intros [Hv' Hm]. destruct (decide (k' = k)); cbn.
    + by apply Forall_cons.
    + apply Forall_cons. split; [done|]. by apply IH.
Qed.

Lemma Forall_values_delete {V} (P : V → Prop) (m : list (string * V)) k :
  Forall P (map_values m) → Forall P (map_values (map_delete m k)).
Proof.
  unfold map_values. induction m as [|[k' v'] m IH]; cbn; [done|].
  rewrite Forall_cons. intros [Hv' Hm]. destruct (decide (k' = k)); cbn.
  - by apply IH.
  - apply Forall_cons. split; [done|]. by apply IH.
Qed.

Lemma displayable_recordProgress task (p : Z) (m : string) (now : Z) :
  bool_decide (p < 0)%Z || bool_decide (p > 100)%Z = false →
  displayable (recordProgress task p m now).
Proof.
  intros [H1 H2]%orb_false_iff. apply bool_decide_eq_false in H1, H2.
  unfold displayable. cbn. lia.
Qed.

Lemma displayable_markStopped task (now : Z) :
  displayable task → displayable (markStopped task now).
Proof. done. Qed.

Lemma displayable_new_manual (n d : string) (now : Z) :
  displayable (newManualTask n d now).
Proof. unfold displayable. cbn. lia. Qed.

Lemma displayable_new_session (s : Session) (now : Z) :
  displayable (newSessionTask s now).
Proof. unfold displayable. cbn. lia. Qed.

Lemma run_drawable op w :
  edits_store op = false → drawable w → drawable (run op w).
Proof.
  intros Hop [Hcur Hvals].
  assert (Hbound : ∀ sid task, map_get (activeTasks w) sid = Some task → displayable task).
  { intros sid task Hget. eapply Forall_forall; [exact Hvals|].
    by eapply map_get_values. }
  destruct op; try discriminate Hop; cbn [run]; unfold_op.
  all: mexec;
    (split;
     [intros task' Htask'; unfold loaded in *; cbn in Htask'
     |cbn [activeTasks set_activeTasks set_console set_notified set_dataFile]]).
  all: repeat match goal with
    | H : Some _ = Some _ |- _ => injection H as <-
    | H : None = Some _ |- _ => discriminate H
    | |- Forall _ (map_values (map_set _ _ _)) => apply Forall_values_set
    | |- Forall _ (map_values (map_delete _ _)) => apply Forall_values_delete
    | |- displayable (markStopped _ _) => apply displayable_markStopped
    | |- displayable (recordProgress _ _ _ _) => by apply displayable_recordProgress
    | |- displayable (newManualTask _ _ _) => apply displayable_new_manual
    | |- displayable (newSessionTask _ _) => apply displayable_new_session
    end.
  all: try done.
  all: try (apply Hcur; congruence).
  all: eauto.
Qed.

Lemma runs_drawable ops w :
  Forall (λ op, edits_store op = false) ops → drawable w → drawable (runs ops w).
Proof.
  intros Hops. revert w. induction Hops as [|op ops Hop _ IH]; intros w Hdraw; [done|].
  cbn. apply IH. by apply run_drawable.
Qed.

(** X12: start from a world in which every stored or bound task has its
    progress within [0,100]; whatever the client then calls and however
    clock and disk behave, as long as nobody else rewrites [tasks.json],
    that stays so, and [showStatus] returns normally: drawing the box of
    the current task never throws. *)
Theorem status_always_drawable ops w :
  drawable w →
  Forall (λ op, edits_store op = false) ops →
  drawable (runs ops w) ∧ (showStatus (runs ops w)).1 = Returned ().
Proof.
  intros Hdraw Hops. pose proof (runs_drawable ops w Hops Hdraw) as Hdraw'.
  split; [done|]. destruct Hdraw' as [Hcur _].
  unfold showStatus. mstep.
  destruct (currentTask (loaded (runs ops w))) as [current|] eqn:Hc; [|done].
  mstep. rewrite displayTask_ok by by apply Hcur. done.
Qed.

Lemma status_always_drawable_witness :
  drawable (runs interleaving freshWorld) ∧
  (showStatus (runs interleaving freshWorld)).1 = Returned ().
Proof.
  apply (status_always_drawable interleaving freshWorld).
  - split; [intros task Htask; discriminate Htask|constructor].
  - unfold interleaving. repeat (constructor; [reflexivity|]). constructor.
Defined.

(** *** Bindings *)

Lemma run_bindings_consistent op w :
  bindings_consistent w → bindings_consistent (run op w).
Proof.
  intros Hcons sid task.
  destruct op; cbn [run]; unfold_op; mexec; cbn; try apply Hcons.
  all: repeat match goal with
    | |- context [map_get (map_delete ?m ?k) ?s] =>
        destruct (decide (k = s)) as [Heq|?];
        [rewrite Heq; rewrite map_get_delete_eq|rewrite map_get_delete_ne by done]
    | |- context [map_get (map_set ?m ?k ?v) ?s] =>
        destruct (decide (k = s)) as [Heq|?];
        [rewrite Heq; rewrite map_get_set_eq|rewrite map_get_set_ne by done]
    end.
  all: try apply Hcons; try done.
  all: intros [= <-]; cbn; first [congruence | eapply Hcons; congruence].
Qed.

(** X13: if every bound task carries the id of the session it is bound
    to, this is still so after any run of calls, clock changes, disk
    failures and rewrites of the store; a freshly constructed tracker,
    with no binding, is such a start. *)
Theorem bindings_stay_consistent ops w :
  bindings_consistent w → bindings_consistent (runs ops w).
Proof.
  revert w. induction ops as [|op ops IH]; intros w Hcons; [done|].
  cbn. apply IH. by apply run_bindings_consistent.
Qed.

Lemma bindings_stay_consistent_witness :
  bindings_consistent (runs interleaving freshWorld).
Proof.
  apply (bindings_stay_consistent interleaving freshWorld).
  intros sid task Hget. discriminate Hget.
Defined.

(** *** Scans *)

Lemma createTaskForSession_effect (session : Session) w :
  ∃ task w',
    createTaskForSession session w = (Returned (Some task), w') ∧
    lastKnownSessions w' = lastKnownSessions w ∧
    diskWritable w' = diskWritable w ∧
    (∀ x, x ∈ map_keys (activeTasks w')
          ↔ x ∈ map_keys (activeTasks w) ∨ x = s_sessionId session).
Proof.
  unfold createTaskForSession. mstep.
  destruct (map_get (activeTasks w) (s_sessionId session)) as [task|] eqn:Hget.
  - eexists _, _. split; [reflexivity|]. split_and!; [done|done|].
    intros x. split; [auto|]. intros [?| ->]; [done|].
    apply map_get_keys. by rewrite Hget.
  - mexec; eexists _, _; (split; [reflexivity|]); (split_and!; [done|done|]);
      intros x; cbn [activeTasks set_activeTasks set_notified set_console set_dataFile];
      rewrite elem_of_keys_map_set; tauto.
Qed.

Lemma handleClosedSession_effect sid w :
  diskWritable w = true →
  ∃ w',
    handleClosedSession sid w = (Returned (), w') ∧
    lastKnownSessions w' = lastKnownSessions w ∧
    diskWritable w' = true ∧
    (∀ x, x ∈ map_keys (activeTasks w') ↔ x ∈ map_keys (activeTasks w) ∧ x ≠ sid).
Proof.
  intros Hdisk. unfold handleClosedSession. mstep.
  destruct (map_get (activeTasks w) sid) as [task|] eqn:Hget.
  - mstep. rewrite Hdisk. mexec; eexists; (split; [reflexivity|]);
      (split_and!; [done|done|]); intros x;
      cbn [activeTasks set_activeTasks set_notified set_console set_dataFile];
      rewrite elem_of_keys_map_delete, elem_of_keys_map_set; tauto.
  - eexists. split; [reflexivity|]. split_and!; [done|done|].
    intros x. split; [|tauto]. intros Hx. split; [done|]. intros ->.
    apply map_get_keys in Hx. rewrite Hget in Hx. by destruct Hx.
Qed.

Lemma forEach_create (sessions : list Session) w :
  ∃ w',
    forEach (λ session, createTaskForSession session;; mret ()) sessions w
      = (Returned (), w') ∧
    lastKnownSessions w' = lastKnownSessions w ∧
    diskWritable w' = diskWritable w ∧
    (∀ x, x ∈ map_keys (activeTasks w')
          ↔ x ∈ map_keys (activeTasks w) ∨ x ∈ s_sessionId <$> sessions).
Proof.
  revert w. induction sessions as [|session sessions IH]; intros w; cbn [forEach].
  - exists w. split; [done|]. split_and!; [done|done|].
    intros x. rewrite fmap_nil, elem_of_nil. tauto.
  - destruct (createTaskForSession_effect session w)
      as (task & w1 & Hrun & Hlast & Hdisk & Hkeys).
    destruct (IH w1) as (w' & Hrun' & Hlast' & Hdisk' & Hkeys').
    exists w'. split.
    + unfold mbind, M_bind, mret, M_ret in *. by rewrite Hrun.
    + split_and!; [congruence|congruence|].
      intros x. rewrite Hkeys', Hkeys, fmap_cons, elem_of_cons. tauto.
Qed.

Lemma forEach_close (sids : list string) w :
  diskWritable w = true →
  ∃ w',
    forEach handleClosedSession sids w = (Returned (), w') ∧
    lastKnownSessions w' = lastKnownSessions w ∧
    diskWritable w' = true ∧
    (∀ x, x ∈ map_keys (activeTasks w') ↔ x ∈ map_keys (activeTasks w) ∧ x ∉ sids).
Proof.
  revert w. induction sids as [|sid sids IH]; intros w Hdisk; cbn [forEach].
  - exists w. split; [done|]. split_and!; [done|done|].
    intros x. rewrite elem_of_nil. tauto.
  - destruct (handleClosedSession_effect sid w Hdisk)
      as (w1 & Hrun & Hlast & Hdisk1 & Hkeys).
    destruct (IH w1 Hdisk1) as (w' & Hrun' & Hlast' & Hdisk' & Hkeys').
    exists w'. split.
    + unfold mbind, M_bind in *. by rewrite Hrun.
    + split_and!; [congruence|done|].
      intros x. rewrite Hkeys', Hkeys, not_elem_of_cons. tauto.
Qed.

Lemma scan_in_step probe w :
  diskWritable w = true →
  (∀ sid, sid ∈ map_keys (activeTasks w) ↔ sid ∈ lastKnownSessions w) →
  ∃ result w' listed,
    scanAndCreateTasks probe w = (Returned result, w') ∧
    (WarpSessionManager.getWarpSessions probe w).1 = Returned listed ∧
    scannedSessions result = listed ∧
    diskWritable w' = true ∧
    (∀ sid, sid ∈ lastKnownSessions w' ↔ sid ∈ s_sessionId <$> listed) ∧
    (∀ sid, sid ∈ map_keys (activeTasks w') ↔ sid ∈ lastKnownSessions w').
Proof.
  intros Hdisk Hstep.
  destruct (detectSessionChanges_polled probe w)
    as (listed & w0 & Hget & Hlast0 & _ & Htasks0 & Hdisk0 & Hdetect).
  set (changes := (WarpSessionManager.polled listed w0).1) in *.
  set (w1 := (WarpSessionManager.polled listed w0).2) in *.
  destruct (forEach_create (WarpSessionManager.newSessions changes) w1)
    as (w2 & Hrun2 & Hlast2 & Hdisk2 & Hkeys2).
  assert (Hdisk2' : diskWritable w2 = true) by (rewrite Hdisk2; cbn; congruence).
  destruct (forEach_close (WarpSessionManager.closedSessions changes) w2 Hdisk2')
    as (w3 & Hrun3 & Hlast3 & Hdisk3 & Hkeys3).
  exists {| newTasks := length (WarpSessionManager.newSessions changes);
            closedTasks := length (WarpSessionManager.closedSessions changes);
            scannedSessions := WarpSessionManager.allSessions changes |}, w3, listed.
  split.
  { unfold scanAndCreateTasks, try_catch, mbind, M_bind, mret, M_ret in *.
    by rewrite Hdetect, Hrun2, Hrun3. }
  split; [done|]. split; [done|]. split; [done|].
  assert (Hsnap : ∀ sid, sid ∈ lastKnownSessions w3 ↔ sid ∈ s_sessionId <$> listed).
  { intros sid. rewrite Hlast3, Hlast2. subst w1. cbn. apply elem_of_set_from. }
  split; [done|]. intros sid. rewrite Hsnap, Hkeys3, Hkeys2.
  subst w1 changes. cbn. rewrite Htasks0, Hstep, <- Hlast0.
  rewrite list_elem_of_filter, set_has_elem_of, elem_of_set_from.
  rewrite list_elem_of_fmap.
  split.
  - intros [[Hold|(s & -> & Hs)] Hnot].
    + destruct (decide (sid ∈ s_sessionId <$> listed)); [done|]. by destruct Hnot.
    + apply list_elem_of_filter in Hs as [_ Hs]. apply list_elem_of_fmap. eauto.
  - intros Hin. split; [|tauto].
    destruct (decide (sid ∈ lastKnownSessions w0)) as [|Hnew]; [by left|right].
    apply list_elem_of_fmap in Hin as (s & -> & Hs). exists s. split; [done|].
    apply list_elem_of_filter. by rewrite set_has_elem_of.
Qed.

(** X14: as long as the store can be written, scanning keeps the bound
    tasks in step with the windows: after every scan a session id has a
    bound task exactly when it is in the registry's snapshot, that is,
    exactly when the last probe listed it; and no scan throws. *)
Theorem scans_keep_bindings_in_step probes probe w :
  diskWritable w = true →
  (∀ sid, sid ∈ map_keys (activeTasks w) ↔ sid ∈ lastKnownSessions w) →
  ∃ result w' listed,
    scanAndCreateTasks probe (scans probes w) = (Returned result, w') ∧
    (WarpSessionManager.getWarpSessions probe (scans probes w)).1 = Returned listed ∧
    scannedSessions result = listed ∧
    (∀ sid, sid ∈ map_keys (activeTasks w') ↔ sid ∈ s_sessionId <$> listed) ∧
    (∀ sid, sid ∈ map_keys (activeTasks w') ↔ sid ∈ lastKnownSessions w').
Proof.
  intros Hdisk Hstep.
  assert (Hinv : diskWritable (scans probes w) = true ∧
                 ∀ sid, sid ∈ map_keys (activeTasks (scans probes w))
                        ↔ sid ∈ lastKnownSessions (scans probes w)).
  { unfold scans. induction probes as [|p probes IH] using rev_ind; [done|].
    rewrite foldl_snoc. destruct IH as [Hdisk' Hstep'].
    destruct (scan_in_step p _ Hdisk' Hstep')
      as (result & w' & listed & Hrun & _ & _ & Hd & _ & Hk).
    by rewrite Hrun. }
  destruct Hinv as [Hdisk' Hstep'].
  destruct (scan_in_step probe _ Hdisk' Hstep')
    as (result & w' & listed & Hrun & Hget & Hres & _ & Hsnap & Hkeys).
  exists result, w', listed. split_and!; try done.
  intros sid. by rewrite Hkeys, Hsnap.
Qed.

Lemma scans_keep_bindings_in_step_witness :
  ∃ result w' listed,
    scanAndCreateTasks (WarpSessionManager.ProbeOk [session2])
      (scans [WarpSessionManager.ProbeOk [session1; session2]] freshWorld)
      = (Returned result, w') ∧
    (WarpSessionManager.getWarpSessions (WarpSessionManager.ProbeOk [session2])
       (scans [WarpSessionManager.ProbeOk [session1; session2]] freshWorld)).1
      = Returned listed ∧
    scannedSessions result = listed ∧
    (∀ sid, sid ∈ map_keys (activeTasks w') ↔ sid ∈ s_sessionId <$> listed) ∧
    (∀ sid, sid ∈ map_keys (activeTasks w') ↔ sid ∈ lastKnownSessions w').
Proof.
  apply (scans_keep_bindings_in_step
           [WarpSessionManager.ProbeOk [session1; session2]]
           (WarpSessionManager.ProbeOk [session2]) freshWorld).
  - reflexivity.
  - intros sid. reflexivity.
Defined.

(** When the disk fails while a closed session is being retired, the
    binding outlives the window: later scans no longer see the session and
    never close it. *)
Example failed_retirement_leaks_binding :
  let w := runs [OpCreateTaskForSession session1] freshWorld in
  let w1 := (scanAndCreateTasks (WarpSessionManager.ProbeOk [session1]) w).2 in
  let w2 := (scanAndCreateTasks (WarpSessionManager.ProbeOk [])
               (set_diskWritable false w1)).2 in
  let w3 := (scanAndCreateTasks (WarpSessionManager.ProbeOk [])
               (set_diskWritable true w2)).2 in
  lastKnownSessions w3 = [] ∧ map_keys (activeTasks w3) = ["warp_1"] ∧
  history (loaded w3) = [].
Proof. by vm_compute. Qed.

End Invariants.

(** ** Sequences of updates, views and callers *)

Section ViewsAndCallers.

Import TaskTracker TaskTrackerViews ElectronIpc.

Implicit Types (w : World) (task : Task).

Ltac mstep :=
  unfold loadData, saveData, loadConfig, Date_now, console_log, notify, when;
  unfold mbind, M_bind, mret, M_ret, gets, modify, throw, try_catch;
  cbn [dataFile configFile diskWritable clock console notified activeTasks
    activeSessions lastKnownSessions set_dataFile set_console set_notified
    set_activeTasks set_activeSessions set_lastKnownSessions set_clock
    set_diskWritable fst snd orb andb].

Ltac mcase :=
  match goal with
  | |- context [if ?b then _ else _] =>
      lazymatch type of b with bool => destruct b eqn:? end
  | |- context [match ?x with Some _ => _ | None => _ end] => destruct x eqn:?
  end.

Ltac mexec := repeat (mstep; try mcase).

Lemma inRange_bounds (p : Z) : inRange p = true ↔ (0 ≤ p ≤ 100)%Z.
Proof.
  unfold inRange. rewrite negb_true_iff, orb_false_iff, !bool_decide_eq_false. lia.
Qed.

Lemma last_cons_default {A} (x : A) (l : list A) :
  last (x :: l) = Some (default x (last l)).
Proof.
  revert x. induction l as [|z l IH]; intros x; [done|].
  change (last (x :: z :: l)) with (last (z :: l)). by rewrite !IH.
Qed.

Lemma default_last_cons {A} (x y : A) (l : list A) :
  default y (last (x :: l)) = default x (last l).
Proof. by rewrite last_cons_default. Qed.

Lemma updateProgress_step w task (p : Z) (m : string) :
  currentTask (loaded w) = Some task →
  diskWritable w = true →
  let w1 := (updateProgress p m w).2 in
  diskWritable w1 = true ∧ clock w1 = clock w ∧
  loaded w1 =
    if inRange p
    then {| currentTask := Some (recordProgress task p m (clock w));
            history := history (loaded w) |}
    else loaded w.
Proof.
  intros Hcur Hdisk. unfold updateProgress, inRange. mstep. rewrite Hcur.
  destruct (bool_decide (p < 0)%Z || bool_decide (p > 100)%Z) eqn:Hrange;
    cbn [negb]; [by mstep|].
  mstep. rewrite Hdisk. mstep.
  rewrite displayTask_ok by by apply displayable_recordProgress.
  unfold logged. mexec; done.
Qed.

(** X15: starting with a current task and a store that can be written, a
    series of [updateProgress] calls leaves on the current task exactly
    the accepted updates (percentage within [0,100]), appended in call
    order after the updates it had; the refused calls leave no trace; the
    progress is that of the last accepted call, and the history is
    untouched. *)
Theorem updates_are_logged_in_order (calls : list (Z * string)) w task :
  currentTask (loaded w) = Some task →
  diskWritable w = true →
  let w' := runs ((λ call, OpUpdateProgress call.1 call.2) <$> calls) w in
  let accepted := filter (λ call, inRange call.1 = true) calls in
  ∃ task',
    currentTask (loaded w') = Some task' ∧
    updates task' = updates task ++
      ((λ call, {| u_timestamp := clock w; u_progress := call.1;
                   u_message := call.2 |}) <$> accepted) ∧
    progress task' = default (progress task) (last (accepted.*1)) ∧
    id task' = id task ∧
    history (loaded w') = history (loaded w).
Proof.
  revert w task. induction calls as [|[p m] calls IH]; intros w task Hcur Hdisk.
  - exists task. cbn. by rewrite app_nil_r.
  - cbn [fmap list_fmap runs foldl run fst snd].
    destruct (updateProgress_step w task p m Hcur Hdisk) as (Hdisk1 & Hclock1 & Hload1).
    fold (runs ((λ call, OpUpdateProgress call.1 call.2) <$> calls)
            (updateProgress p m w).2).
    rewrite filter_cons. cbn [fst].
    destruct (inRange p) eqn:Hrange.
    + rewrite decide_True by done.
      destruct (IH (updateProgress p m w).2 (recordProgress task p m (clock w)))
        as (task' & Hcur' & Hupd & Hprog & Hid & Hhist); [by rewrite Hload1|done|].
      exists task'. split; [done|]. rewrite Hupd, Hprog, Hid, Hhist, Hload1, Hclock1.
      cbn. rewrite <- app_assoc. split_and!; try done.
      symmetry. apply default_last_cons.
    + rewrite decide_False by done.
      destruct (IH (updateProgress p m w).2 task)
        as (task' & Hcur' & Hupd & Hprog & Hid & Hhist);
        [by rewrite Hload1|done|].
      exists task'. by rewrite Hupd, Hprog, Hid, Hhist, Hload1, Hclock1.
Qed.

Lemma updates_are_logged_in_order_witness :
  ∃ task',
    currentTask (loaded (runs [OpUpdateProgress 40 "draft done"; OpUpdateProgress 140 "typo";
                               OpUpdateProgress 90 "review"] worldWithB)) = Some task' ∧
    updates task' =
      [{| u_timestamp := clock worldWithB; u_progress := 40; u_message := "draft done" |};
       {| u_timestamp := clock worldWithB; u_progress := 90; u_message := "review" |}] ∧
    progress task' = 90%Z ∧
    id task' = id taskB ∧
    history (loaded (runs [OpUpdateProgress 40 "draft done"; OpUpdateProgress 140 "typo";
                           OpUpdateProgress 90 "review"] worldWithB)) = [].
Proof.
  apply (updates_are_logged_in_order
           [(40%Z, "draft done"); (140%Z, "typo"); (90%Z, "review")] worldWithB taskB);
    reflexivity.
Defined.

(** *** The suggestion *)

(** X16: [getCurrentOrSuggestedTask] only reads.  It answers with the
    store's current task whenever there is one; otherwise with the task
    bound to the active session, if that session has one; otherwise with
    the first bound task; and with 'none' exactly when the store has no
    current task and no session has a bound task. *)
Theorem suggestion_cases (activeSession : option Session) w :
  ∃ answer,
    getCurrentOrSuggestedTask activeSession w = (Returned answer, w) ∧
    match answer with
    | SuggestCurrent task => currentTask (loaded w) = Some task
    | Suggested task (Some session) =>
        currentTask (loaded w) = None ∧
        activeSession = Some session ∧
        map_get (activeTasks w) (s_sessionId session) = Some task
    | Suggested task None =>
        currentTask (loaded w) = None ∧
        (activeSession ≫= λ session, map_get (activeTasks w) (s_sessionId session)) = None ∧
        head (map_values (activeTasks w)) = Some task
    | SuggestNone =>
        currentTask (loaded w) = None ∧ activeTasks w = []
    end.
Proof.
  unfold getCurrentOrSuggestedTask. mstep.
  destruct (currentTask (loaded w)) as [task|]; [by eexists|].
  mstep.
  assert (Hfirst : ∀ answer,
            answer = match map_values (activeTasks w) with
                     | task :: _ => Suggested task None
                     | [] => SuggestNone
                     end →
            (activeSession ≫= λ session, map_get (activeTasks w) (s_sessionId session))
              = None →
            match answer with
            | SuggestCurrent task => @None Task = Some task
            | Suggested task (Some session) =>
                @None Task = None ∧ activeSession = Some session ∧
                map_get (activeTasks w) (s_sessionId session) = Some task
            | Suggested task None =>
                @None Task = None ∧
                (activeSession ≫= λ session,
                   map_get (activeTasks w) (s_sessionId session)) = None ∧
                head (map_values (activeTasks w)) = Some task
            | SuggestNone => @None Task = None ∧ activeTasks w = []
            end).
  { intros answer -> Hunbound. unfold map_values.
    destruct (activeTasks w) as [|[k v] m]; cbn; by split_and!. }
  destruct activeSession as [session|].
  - destruct (map_get (activeTasks w) (s_sessionId session)) as [task|] eqn:Hget.
    + eexists. split; [reflexivity|]. by split_and!.
    + eexists. split; [reflexivity|]. by apply Hfirst.
  - eexists. split; [reflexivity|]. by apply Hfirst.
Qed.

(** *** The IPC handlers *)

(** X17: with drawable tasks and a store that can be written, the four
    task handlers answer [{ success: true }] to every request, the ones
    the tracker refuses included (a start while a task is current, an
    update without a task or out of range, a completion or a stop without
    a task): the reply does not tell whether anything was done. *)
Theorem ipc_always_reports_success (request : Request) w :
  drawable w →
  diskWritable w = true →
  (invoke request w).1 = Returned {| success := true; error := None |}.
Proof.
  intros [Hcur _] Hdisk.
  destruct request as [n d|p m|m|]; cbn [invoke]; unfold handle.
  - unfold startTask. mstep.
    destruct (currentTask (loaded w)) as [task|] eqn:Hc; mstep.
    + rewrite displayTask_ok by by apply Hcur. done.
    + rewrite Hdisk. mstep. rewrite displayTask_ok by apply displayable_new_manual.
      unfold logged. mexec; done.
  - unfold updateProgress. mstep.
    destruct (currentTask (loaded w)) as [task|] eqn:Hc; mstep; [|done].
    destruct (bool_decide (p < 0)%Z || bool_decide (p > 100)%Z) eqn:Hrange; mstep; [done|].
    rewrite Hdisk. mstep.
    rewrite displayTask_ok by by apply displayable_recordProgress.
    unfold logged. mexec; done.
  - unfold completeTask. mstep.
    destruct (currentTask (loaded w)) as [task|] eqn:Hc; mstep; [|done].
    rewrite Hdisk. mstep. rewrite displayTask_ok by (cbn; lia).
    unfold logged. mexec; done.
  - unfold stopTask. mstep.
    destruct (currentTask (loaded w)) as [task|] eqn:Hc; mstep; [|done].
    rewrite Hdisk. by mstep.
Qed.

Lemma ipc_always_reports_success_witness :
  (invoke (StartTask "A" "") worldWithB).1 = Returned {| success := true; error := None |} ∧
  dataFile (invoke (StartTask "A" "") worldWithB).2 = dataFile worldWithB ∧
  (invoke (UpdateProgress 101 "") worldWithB).1
    = Returned {| success := true; error := None |} ∧
  (invoke StopTask freshWorld).1 = Returned {| success := true; error := None |}.
Proof.
  assert (Hdraw : ∀ w, w = worldWithB ∨ w = freshWorld → drawable w).
  { intros w [-> | ->]; (split; [|constructor]); intros task [= <-] || intros task [=].
    unfold displayable. cbn. lia. }
  split_and!.
  - apply (ipc_always_reports_success (StartTask "A" "") worldWithB); [|reflexivity].
    apply Hdraw. by left.
  - reflexivity.
  - apply (ipc_always_reports_success (UpdateProgress 101 "") worldWithB); [|reflexivity].
    apply Hdraw. by left.
  - apply (ipc_always_reports_success StopTask freshWorld); [|reflexivity].
    apply Hdraw. by right.
Defined.

(** X18: a failing store write is the one thing the handlers report: a
    request that the tracker accepts is answered
    [{ success: false, error }] with the write error when the store
    cannot be written, and the store keeps its contents. *)
Theorem ipc_reports_write_failure (request : Request) w task :
  diskWritable w = false →
  currentTask (loaded w) =
    match request with StartTask _ _ => None | _ => Some task end →
  match request with UpdateProgress p _ => inRange p = true | _ => True end →
  (invoke request w).1 = Returned {| success := false; error := Some IOError |} ∧
  dataFile (invoke request w).2 = dataFile w.
Proof.
  intros Hdisk Hcur Hrange.
  destruct request as [n d|p m|m|]; cbn [invoke]; unfold handle.
  - unfold startTask. mstep. rewrite Hcur. mstep. rewrite Hdisk. by mstep.
  - unfold updateProgress. mstep. rewrite Hcur.
    unfold inRange in Hrange. apply negb_true_iff in Hrange. rewrite Hrange.
    mstep. rewrite Hdisk. by mstep.
  - unfold completeTask. mstep. rewrite Hcur. mstep. rewrite Hdisk. by mstep.
  - unfold stopTask. mstep. rewrite Hcur. mstep. rewrite Hdisk. by mstep.
Qed.

Lemma ipc_reports_write_failure_witness :
  (invoke (CompleteTask "done") (set_diskWritable false worldWithB)).1
    = Returned {| success := false; error := Some IOError |} ∧
  dataFile (invoke (CompleteTask "done") (set_diskWritable false worldWithB)).2
    = dataFile worldWithB.
Proof.
  apply (ipc_reports_write_failure (CompleteTask "done")
           (set_diskWritable false worldWithB) taskB); [reflexivity|reflexivity|exact I].
Defined.

End ViewsAndCallers.

(** ** Durations *)

Section Durations.

Import TaskTrackerViews.

(** X19: for a task that did not end before it started,
    [calculateDuration] splits the elapsed time into whole hours and whole
    minutes below 60, rounding down to the minute, and prints the hours
    only when there is at least one; an ongoing task is measured against
    the clock, and the world is left alone. *)
Theorem duration_is_hours_and_minutes (startTime : Z) (endTime : option Z) (w : World) :
  let elapsed := (default (clock w) endTime - startTime)%Z in
  (0 ≤ elapsed)%Z →
  ∃ hours minutes : Z,
    (0 ≤ hours)%Z ∧ (0 ≤ minutes < 60)%Z ∧
    (hours * 3600000 + minutes * 60000 ≤ elapsed
       < hours * 3600000 + (minutes + 1) * 60000)%Z ∧
    calculateDuration startTime endTime w =
      (Returned (if decide (hours = 0%Z)
                 then pretty minutes +:+ "m"
                 else pretty hours +:+ "h " +:+ pretty minutes +:+ "m"), w).
Proof.
  intros elapsed Helapsed.
  exists (elapsed `div` (1000 * 60 * 60))%Z,
         ((elapsed `rem` (1000 * 60 * 60)) `div` (1000 * 60))%Z.
  assert (Hrem : (elapsed `rem` (1000 * 60 * 60) = elapsed `mod` (1000 * 60 * 60))%Z)
    by (apply Z.rem_mod_nonneg; lia).
  rewrite Hrem.
  pose proof (Z.div_mod elapsed (1000 * 60 * 60) ltac:(lia)) as Hdm.
  pose proof (Z.mod_pos_bound elapsed (1000 * 60 * 60) ltac:(lia)) as Hmod.
  set (r := (elapsed `mod` (1000 * 60 * 60))%Z) in *.
  set (h := (elapsed `div` (1000 * 60 * 60))%Z) in *.
  pose proof (Z.div_mod r (1000 * 60) ltac:(lia)) as Hdm'.
  pose proof (Z.mod_pos_bound r (1000 * 60) ltac:(lia)) as Hmod'.
  set (m := (r `div` (1000 * 60))%Z) in *.
  assert (0 ≤ h)%Z by (apply Z.div_pos; lia).
  split; [lia|]. split; [lia|]. split; [lia|].
  assert (Hrun : ∀ shown : string,
            (if bool_decide (h > 0)%Z
             then (Returned (pretty h +:+ "h " +:+ pretty m +:+ "m"), w)
             else (Returned (pretty m +:+ "m"), w)) = (Returned shown, w) →
            calculateDuration startTime endTime w = (Returned shown, w)).
  { intros shown <-. subst h m r elapsed. rewrite <- Hrem.
    unfold calculateDuration, mbind, M_bind, mret, M_ret, Date_now, gets.
    destruct endTime; cbn [default from_option]; unfold Datatypes.id;
      by case_bool_decide. }
  apply Hrun. destruct (decide (h = 0%Z)) as [Hz|Hne].
  - by rewrite bool_decide_eq_false_2 by lia.
  - by rewrite bool_decide_eq_true_2 by lia.
Qed.

Lemma duration_is_hours_and_minutes_witness :
  ∃ hours minutes : Z,
    (0 ≤ hours)%Z ∧ (0 ≤ minutes < 60)%Z ∧
    (hours * 3600000 + minutes * 60000 ≤ 1700005400000 - 1700000000000
       < hours * 3600000 + (minutes + 1) * 60000)%Z ∧
    calculateDuration 1700000000000 (Some 1700005400000%Z) freshWorld =
      (Returned (if decide (hours = 0%Z)
                 then pretty minutes +:+ "m"
                 else pretty hours +:+ "h " +:+ pretty minutes +:+ "m"), freshWorld).
Proof.
  apply (duration_is_hours_and_minutes 1700000000000 (Some 1700005400000%Z) freshWorld).
  cbn. lia.
Defined.

(** Ninety minutes print as "1h 30m"; a task that ended a minute before
    it started prints "-1m". *)
Example duration_examples :
  (calculateDuration 1700000000000 (Some 1700005400000%Z) freshWorld).1
    = Returned "1h 30m" ∧
  (calculateDuration 1700000000000 None freshWorld).1 = Returned "0m" ∧
  (calculateDuration 1700000060000 (Some 1700000000000%Z) freshWorld).1
    = Returned "-1m".
Proof. by vm_compute. Qed.

End Durations.

(** ** Project names *)

Section ProjectNames.

Import ProjectName.

Variable formatProjectName : string → string.
Variable home : string.

Abbreviation extract := (extractProjectName formatProjectName home).
Abbreviation scanned := (scan formatProjectName).

Lemma split_char_component (c rest : string) :
  slashFree c = true →
  split_char "/" (c +:+ String "/" rest) = c :: split_char "/" rest.
Proof.
  induction c as [|a c IH]; intros Hc.
  - change ("" +:+ String "/" rest) with (String "/" rest).
    cbn [split_char]. by rewrite decide_True.
  - change (String a c +:+ String "/" rest) with (String a (c +:+ String "/" rest)).
    cbn [slashFree] in Hc. apply andb_true_iff in Hc as [Ha Hc].
    apply negb_true_iff, bool_decide_eq_false in Ha.
    cbn [split_char]. rewrite decide_False by done. by rewrite IH.
Qed.

Lemma split_char_single (c : string) :
  slashFree c = true → split_char "/" c = [c].
Proof.
  induction c as [|a c IH]; intros Hc; cbn [split_char]; [done|].
  cbn [slashFree] in Hc. apply andb_true_iff in Hc as [Ha Hc].
  apply negb_true_iff, bool_decide_eq_false in Ha.
  rewrite decide_False by done. by rewrite IH.
Qed.

Lemma string_app_empty (c : string) : c +:+ "" = c.
Proof.
  induction c as [|a c IH]; [done|].
  change (String a c +:+ "") with (String a (c +:+ "")). by rewrite IH.
Qed.

Lemma split_char_absolute (c : string) (cs : list string) :
  slashFree c = true → Forall (λ c, isComponent c = true) cs →
  split_char "/" (c +:+ absolute cs) = c :: cs.
Proof.
  intros Hc Hcs. revert c Hc. induction Hcs as [|c' cs Hc' _ IH]; intros c Hc.
  - cbn [absolute foldr]. rewrite string_app_empty. by apply split_char_single.
  - cbn [absolute foldr]. rewrite split_char_component by done.
    f_equal. apply IH. by apply andb_true_iff in Hc' as [_ ?].
Qed.

(** Splitting undoes joining: the parts of [/c1/.../cn] are
    [c1, ..., cn]. *)
Lemma parts_of_absolute (cs : list string) :
  Forall (λ c, isComponent c = true) cs →
  filter (λ part, part ≠ "") (split_char "/" (absolute cs)) = cs.
Proof.
  intros Hcs. destruct Hcs as [|c cs Hc Hcs]; [done|].
  change (absolute (c :: cs)) with (String "/" (c +:+ absolute cs)).
  cbn [split_char]. rewrite decide_True by done.
  rewrite split_char_absolute; [|by apply andb_true_iff in Hc as [_ ?]|done].
  rewrite filter_cons_False by (by intros Hne; apply Hne).
  apply filter_all. intros x Hx.
  assert (Hx' : isComponent x = true).
  { apply elem_of_cons in Hx as [->|Hx]; [done|].
    by eapply Forall_forall in Hcs. }
  apply andb_true_iff in Hx' as [Hne _].
  by apply negb_true_iff, bool_decide_eq_false in Hne.
Qed.

Lemma pathParts_absolute (cs : list string) :
  Forall (λ c, isComponent c = true) cs → pathParts home (absolute cs) = cs.
Proof.
  intros Hcs. unfold pathParts. rewrite <- (parts_of_absolute cs Hcs) at 2.
  destruct cs as [|c cs]; [done|].
  change (absolute (c :: cs)) with (String "/" (c +:+ absolute cs)).
  by cbv beta iota zeta.
Qed.

Lemma string_app_assoc (a b c : string) : (a +:+ b) +:+ c = a +:+ (b +:+ c).
Proof.
  induction a as [|x a IH]; [done|].
  change ((String x a +:+ b) +:+ c) with (String x ((a +:+ b) +:+ c)).
  by rewrite IH.
Qed.

Lemma absolute_app (hs cs : list string) :
  absolute (hs ++ cs) = absolute hs +:+ absolute cs.
Proof.
  induction hs as [|h hs IH]; [done|].
  change (absolute ((h :: hs) ++ cs)) with (String "/" (h +:+ absolute (hs ++ cs))).
  change (absolute (h :: hs) +:+ absolute cs)
    with (String "/" ((h +:+ absolute hs) +:+ absolute cs)).
  by rewrite IH, string_app_assoc.
Qed.

Lemma extract_absolute (cs : list string) :
  cs ≠ [] → Forall (λ c, isComponent c = true) cs →
  extract (absolute cs) =
    match scanned cs (length cs) with
    | Some projectName => projectName
    | None => formatProjectName (default "Unknown Project" (last cs))
    end.
Proof.
  intros Hne Hcs. unfold extractProjectName. rewrite pathParts_absolute by done.
  destruct cs as [|c cs]; [done|].
  apply Forall_cons in Hcs as [Hc _]. apply andb_true_iff in Hc as [Hc _].
  apply negb_true_iff, bool_decide_eq_false in Hc.
  destruct c as [|a c]; [done|]. cbn [absolute foldr].
  rewrite !bool_decide_eq_false_2; [done| | |]; intros Heq; by simplify_eq.
Qed.

Lemma scan_skips_tail (parts tail : list string) :
  Forall (λ t, skipped t = true) tail →
  scanned (parts ++ tail) (length parts + length tail)
  = scanned (parts ++ tail) (length parts).
Proof.
  intros Htail.
  assert (Hk : ∀ k, k ≤ length tail →
            scanned (parts ++ tail) (length parts + k)
            = scanned (parts ++ tail) (length parts)).
  { induction k as [|k IH]; intros Hle; [by rewrite Nat.add_0_r|].
    rewrite Nat.add_succ_r. cbn [scan].
    destruct (lookup_lt_is_Some_2 tail k ltac:(lia)) as [t Ht].
    rewrite lookup_app_r by lia.
    replace (length parts + k - length parts) with k by lia. rewrite Ht. cbn [default from_option].
    unfold Datatypes.id.
    assert (skipped t = true) as ->.
    { eapply Forall_forall in Htail; [exact Htail|]. by eapply list_elem_of_lookup_2. }
    apply IH. lia. }
  by apply Hk.
Qed.

(** X20: for a directory [/c1/.../cn/d] whose last name [d] is not one of
    src, lib, bin, node_modules and .git, the project name is the
    formatted [d], whatever stands above it. *)
Theorem project_is_last_directory (above : list string) (d : string) :
  Forall (λ c, isComponent c = true) (above ++ [d]) →
  skipped d = false →
  extract (absolute (above ++ [d])) = formatProjectName d.
Proof.
  intros Hcs Hd. rewrite extract_absolute; [|by destruct above|done].
  rewrite length_app. cbn [length]. rewrite Nat.add_1_r. cbn [scan].
  rewrite lookup_app_r by lia. rewrite Nat.sub_diag. cbn [lookup list_lookup default from_option].
  unfold Datatypes.id. rewrite Hd.
  destruct (bool_decide (0 < length above) && _); [done|].
  rewrite bool_decide_eq_true_2; [done|]. rewrite length_app. cbn. lia.
Qed.

(** X21: when the path ends in directories that are all skipped (src,
    lib, bin, node_modules, .git) and the name [d] just above them is not
    skipped and stands right below a project indicator (src, projects,
    code, development, dev, work), the project name is the formatted
    [d]. *)
Theorem project_follows_indicator (above below : list string) (indicator d : string) :
  Forall (λ c, isComponent c = true) (above ++ [indicator; d] ++ below) →
  isIndicator indicator = true →
  skipped d = false →
  Forall (λ t, skipped t = true) below →
  extract (absolute (above ++ [indicator; d] ++ below)) = formatProjectName d.
Proof.
  intros Hcs Hind Hd Hbelow.
  rewrite extract_absolute; [|by destruct above|done].
  rewrite app_assoc, length_app, scan_skips_tail by done.
  rewrite length_app. cbn [length].
  replace (length above + 2) with (S (length above + 1)) by lia. cbn [scan].
  rewrite <- !app_assoc.
  rewrite (lookup_app_r above) by lia.
  replace (length above + 1 - length above) with 1 by lia.
  cbn [app lookup list_lookup default from_option]. unfold Datatypes.id. rewrite Hd.
  rewrite bool_decide_eq_true_2 by lia. cbn [andb].
  replace (length above + 1 - 1) with (length above) by lia.
  rewrite (lookup_app_r above) by lia. rewrite Nat.sub_diag.
  cbn [lookup list_lookup default from_option]. unfold Datatypes.id. by rewrite Hind.
Qed.

Lemma substitute_dollarFree (template matched before after : string) :
  dollarFree template = true →
  substitute template matched before after = template.
Proof.
  induction template as [|c t IH]; intros Hfree; [done|].
  cbn [dollarFree] in Hfree. apply andb_true_iff in Hfree as [Hc Ht].
  apply negb_true_iff, bool_decide_eq_false in Hc.
  cbn [substitute]. rewrite decide_False by done. by rewrite IH.
Qed.

(** X23: when the value of HOME is a path [/h1/.../hm] without a dollar
    sign (a dollar would be read as a substitution pattern by [replace]),
    a working directory written [~/c1/.../cn] gets the project name of the
    spelled-out path [/h1/.../hm/c1/.../cn]. *)
Theorem project_under_home (hs cs : list string) :
  home = absolute hs →
  dollarFree home = true →
  cs ≠ [] →
  Forall (λ c, isComponent c = true) hs →
  Forall (λ c, isComponent c = true) cs →
  extract (String "~" (absolute cs)) = extract (absolute (hs ++ cs)).
Proof.
  intros Hhome Hfree Hne Hhs Hcs.
  assert (Hall : Forall (λ c, isComponent c = true) (hs ++ cs)) by by apply Forall_app.
  rewrite extract_absolute; [|by destruct hs, cs|done].
  unfold extractProjectName, pathParts.
  rewrite substitute_dollarFree by done.
  rewrite Hhome, <- absolute_app, parts_of_absolute by done.
  destruct cs as [|c cs]; [done|].
  change (absolute (c :: cs)) with (String "/" (c +:+ absolute cs)).
  rewrite !bool_decide_eq_false_2; [done| | |]; intros Heq; by simplify_eq.
Qed.

(** X22: when the last name [d] is a skipped one and no name above it is
    an unskipped name right below a project indicator, the loop finds
    nothing and the project name falls back to the formatted last name,
    skipped though it is. *)
Theorem project_falls_back_to_last (above : list string) (d : string) :
  Forall (λ c, isComponent c = true) (above ++ [d]) →
  skipped d = true →
  (∀ i a b, above !! i = Some a → above !! S i = Some b →
            isIndicator a = true → skipped b = true) →
  extract (absolute (above ++ [d])) = formatProjectName d.
Proof.
  intros Hcs Hd Hnone. rewrite extract_absolute; [|by destruct above|done].
  rewrite length_app. cbn [length]. rewrite Nat.add_1_r. cbn [scan].
  rewrite (lookup_app_r above) by lia. rewrite Nat.sub_diag.
  cbn [lookup list_lookup default from_option]. unfold Datatypes.id. rewrite Hd.
  assert (Hscan : ∀ n, n ≤ length above → scanned (above ++ [d]) n = None).
  { induction n as [|i IH]; intros Hle; [done|]. cbn [scan].
    destruct (lookup_lt_is_Some_2 above i ltac:(lia)) as [b Hb].
    rewrite (lookup_app_l above) by lia. rewrite Hb.
    change (default "" (Some b)) with b.
    destruct (skipped b) eqn:Hskip; [apply IH; lia|].
    assert (bool_decide (0 < i)
            && isIndicator (default "" ((above ++ [d]) !! (i - 1))) = false) as ->.
    { apply andb_false_iff. destruct i as [|i]; [left; by apply bool_decide_eq_false_2; lia|].
      right. replace (S i - 1) with i by lia.
      destruct (lookup_lt_is_Some_2 above i ltac:(lia)) as [a Ha].
      rewrite (lookup_app_l above) by lia. rewrite Ha. cbn.
      destruct (isIndicator a) eqn:Hind; [|done].
      rewrite (Hnone i a b Ha Hb Hind) in Hskip. discriminate Hskip. }
    rewrite bool_decide_eq_false_2; [apply IH; lia|].
    rewrite length_app. cbn. lia. }
  rewrite Hscan by done. by rewrite last_snoc.
Qed.

End ProjectNames.

Lemma project_is_last_directory_witness :
  ProjectName.extractProjectName plainName "/Users/u" (ProjectName.absolute (["home"; "u"; "src"] ++ ["warp-task-tracker"]))
  = plainName "warp-task-tracker".
Proof.
  apply (project_is_last_directory plainName "/Users/u" ["home"; "u"; "src"] "warp-task-tracker");
    [|reflexivity].
  repeat (constructor; [reflexivity|]). constructor.
Defined.

Lemma project_follows_indicator_witness :
  ProjectName.extractProjectName plainName "/Users/u" (ProjectName.absolute (["home"; "u"] ++ ["projects"; "alpha"] ++ ["src"; "lib"]))
  = plainName "alpha".
Proof.
  apply (project_follows_indicator plainName "/Users/u" ["home"; "u"] ["src"; "lib"] "projects" "alpha");
    try reflexivity; repeat (constructor; [reflexivity|]); constructor.
Defined.

Lemma project_falls_back_to_last_witness :
  ProjectName.extractProjectName plainName "/Users/u" (ProjectName.absolute (["home"; "u"; "app"] ++ ["src"])) = plainName "src".
Proof.
  apply (project_falls_back_to_last plainName "/Users/u" ["home"; "u"; "app"] "src"); [|reflexivity|].
  - repeat (constructor; [reflexivity|]). constructor.
  - intros [|[|[|i]]] a b Ha Hb Hind; simplify_eq/=; discriminate Hind.
Defined.

(** The empty path, the home directory and the root are "General Tasks";
    a path of slashes only has no part and is "Unknown Project",
    formatted. *)
Example project_name_edges :
  ProjectName.extractProjectName plainName "/Users/u" "" = "General Tasks" ∧ ProjectName.extractProjectName plainName "/Users/u" "~" = "General Tasks" ∧
  ProjectName.extractProjectName plainName "/Users/u" "/" = "General Tasks" ∧
  ProjectName.extractProjectName plainName "/Users/u" "//" = plainName "Unknown Project".
Proof. by vm_compute. Qed.

Lemma project_under_home_witness :
  ProjectName.extractProjectName plainName (ProjectName.absolute ["Users"; "u"])
    (String "~" (ProjectName.absolute ["projects"; "alpha"; "src"]))
  = ProjectName.extractProjectName plainName (ProjectName.absolute ["Users"; "u"])
      (ProjectName.absolute (["Users"; "u"] ++ ["projects"; "alpha"; "src"])).
Proof.
  apply (project_under_home plainName (ProjectName.absolute ["Users"; "u"])
           ["Users"; "u"] ["projects"; "alpha"; "src"]);
    [reflexivity|reflexivity|done| |]; repeat (constructor; [reflexivity|]); constructor.
Defined.

(** [~/projects/alpha/src] is the project alpha. *)
Example project_under_home_example :
  ProjectName.extractProjectName plainName "/Users/u" "~/projects/alpha/src" = "alpha".
Proof. by vm_compute. Qed.

(** A dollar pattern in HOME is expanded: with HOME [/projects/a$&b] the
    tilde itself is put where [$&] stands, and the two spellings of the
    directory name different projects. *)
Example project_under_home_with_pattern :
  ProjectName.extractProjectName plainName "/projects/a$&b" "~/src" = "a~b" ∧
  ProjectName.extractProjectName plainName "/projects/a$&b" "/projects/a$&b/src"
    = "a$&b".
Proof. by vm_compute. Qed.
